(** * code-obituary: the graveyard store, the obituary composer, the
    hook and the commands

    A shallow embedding of [code_obituary/graveyard.py],
    [code_obituary/analyzer.py], [code_obituary/hook.py] and the
    commands of [code_obituary/cli.py], with the properties of the
    specification proved (or refuted) over it.

    Modelling conventions.
    - A Python [str] is a list of Unicode code points ([pystr]); text is
      assumed encodable (no lone surrogate), so the UTF-8 layer of
      [open(..., encoding="utf-8")] is the identity on it.
    - The file system is a finite map from paths to the text stored in
      regular files; the repository root is an existing writable
      directory of a POSIX system (path separator [/], line separator
      LF, so text-mode writing stores the characters unchanged).
    - Text-mode reading applies Python's universal-newlines translation
      ([open] with the default [newline=None]).
    - [re] is modelled by a backtracking matcher over a small regex
      syntax, with the library's greedy quantifiers.
    - Git is a function from the command line to what running it ends
      in; the hook files carry their mode bits and whether the process
      may change them. *)

From Stdlib Require Import DecimalString.
From stdpp Require Import gmap strings list fin_maps.

(** ** Python strings *)

Abbreviation char := N.
Abbreviation pystr := (list N).

(** The code points of an ASCII string. *)
Definition str_codes (s : string) : pystr :=
  Ascii.N_of_ascii <$> String.list_ascii_of_string s.

(** [py "text"] is a string literal of the source: the list of the code
    points of an ASCII literal, computed where it is written. Other
    code points are written as numbers. *)
Notation "'py' s" :=
  (ltac:(let v := eval vm_compute in (str_codes s) in exact v))
  (at level 10, s at level 0, only parsing).

Definition LF : char := 10%N.
Definition CR : char := 13%N.
Definition EM_DASH : char := 0x2014%N.
Definition FEATHER : char := 0x1FAB6%N.

(** [str.isspace] for one character, which is also what [str.strip] and
    the regex class [\s] use. *)
Definition isspace (c : char) : bool :=
  ((9 <=? c) && (c <=? 13) || (28 <=? c) && (c <=? 32)
   || (c =? 0x85) || (c =? 0xA0) || (c =? 0x1680)
   || (0x2000 <=? c) && (c <=? 0x200A)
   || (c =? 0x2028) || (c =? 0x2029) || (c =? 0x202F)
   || (c =? 0x205F) || (c =? 0x3000))%N.

(** The line boundaries of [str.splitlines]. *)
Definition islinebreak (c : char) : bool :=
  ((10 <=? c) && (c <=? 13) || (28 <=? c) && (c <=? 30)
   || (c =? 0x85) || (c =? 0x2028) || (c =? 0x2029))%N.

(** Truthiness of a string or of a list: [if s:]. *)
Definition truthy {A} (s : list A) : bool :=
  match s with [] => false | _ => true end.

(** Truthiness of an [Optional[str]]: [None] and [""] are false. *)
Definition otruthy (o : option pystr) : bool :=
  match o with Some s => truthy s | None => false end.

(** [str(x)] inside an f-string for an [Optional[str]]. *)
Definition ostr (o : option pystr) : pystr :=
  match o with Some s => s | None => py "None" end.

(** [s.lstrip()], [s.rstrip()], [s.strip()]. *)
Fixpoint lstrip (s : pystr) : pystr :=
  match s with
  | c :: s' => if isspace c then lstrip s' else s
  | [] => []
  end.

Definition rstrip (s : pystr) : pystr := reverse (lstrip (reverse s)).

Definition strip (s : pystr) : pystr := rstrip (lstrip s).

(** [s.rstrip(chars)]. *)
Fixpoint lstrip_chars (chars : pystr) (s : pystr) : pystr :=
  match s with
  | c :: s' => if bool_decide (c ∈ chars) then lstrip_chars chars s' else s
  | [] => []
  end.

Definition rstrip_chars (chars : pystr) (s : pystr) : pystr :=
  reverse (lstrip_chars chars (reverse s)).

(** [s.startswith(p)]. *)
Fixpoint startswith (s p : pystr) {struct p} : bool :=
  match p, s with
  | [], _ => true
  | a :: p', b :: s' => (a =? b)%N && startswith s' p'
  | _ :: _, [] => false
  end.

(** [p in s]. *)
Fixpoint contains (s p : pystr) : bool :=
  startswith s p || match s with [] => false | _ :: s' => contains s' p end.

(** [sep.join(l)]. *)
Fixpoint join (sep : pystr) (l : list pystr) : pystr :=
  match l with
  | [] => []
  | [x] => x
  | x :: l' => x ++ sep ++ join sep l'
  end.

(** [s.splitlines()]: [cur] is the line being read and [after_cr] tells
    that the last character was a CR, with which a following LF makes
    one boundary. A boundary at the very end opens no further line. *)
Fixpoint splitlines_from (cur : pystr) (after_cr : bool) (s : pystr)
    : list pystr :=
  match s with
  | [] => match cur with [] => [] | _ => [cur] end
  | c :: s' =>
      if after_cr && (c =? LF)%N then splitlines_from cur false s'
      else if islinebreak c then cur :: splitlines_from [] (c =? CR)%N s'
      else splitlines_from (cur ++ [c]) false s'
  end.

Definition splitlines (s : pystr) : list pystr := splitlines_from [] false s.

(** [str(n)] for a non-negative integer. *)
Definition str_of_nat (n : nat) : pystr :=
  str_codes (NilZero.string_of_uint (Nat.to_uint n)).

(** [f"{n:0{w}d}"]: decimal, padded with zeros to width [w]. *)
Definition zero_pad (w : nat) (n : nat) : pystr :=
  let d := str_of_nat n in replicate (w - length d) 48%N ++ d.

(** ** The [re] module

    The regex syntax the program's patterns need. [Grp] is the capturing
    group: each pattern of the program has at most one. *)
Inductive regex : Type :=
  | Lit (l : pystr)          (* a literal run of characters *)
  | Cls (p : char → bool)    (* a character class: [\s], [.], [[a-z]] *)
  | Bol                      (* [^] *)
  | Cat (r1 r2 : regex)
  | Opt (r : regex)          (* [r?], greedy *)
  | Star (r : regex)         (* [r*], greedy *)
  | Grp (r : regex).         (* [(r)] *)

Infix "+>" := Cat (at level 60, right associativity).

(** [r+], greedy. *)
Definition Plus (r : regex) : regex := r +> Star r.

(** [.] without [re.DOTALL]. *)
Definition dot (c : char) : bool := negb (c =? LF)%N.

(** The character before the cursor after reading [l]. *)
Definition prev_after (prev : option char) (l : pystr) : option char :=
  match last l with Some c => Some c | None => prev end.

(** [s[len(p):]] when [s] starts with [p]. *)
Fixpoint strip_prefix (p s : pystr) {struct p} : option pystr :=
  match p, s with
  | [], _ => Some s
  | a :: p', b :: s' => if (a =? b)%N then strip_prefix p' s' else None
  | _ :: _, [] => None
  end.

Section Matcher.
(** [re.MULTILINE] *)
Variable multiline : bool.

(** [^]: the start of the string and, under [re.MULTILINE], the
    position right after a line feed. *)
Definition at_bol (prev : option char) : bool :=
  match prev with
  | None => true
  | Some c => multiline && (c =? LF)%N
  end.

Context {R : Type}.

(** Where a match goes on: the character before the cursor, the text
    left to read, the text captured so far. *)
Definition cont : Type := option char → pystr → option pystr → option R.

(** The greedy loop of [r*], given the matcher [body] of [r]: one
    more [r] first, the continuation when that fails. An iteration
    that reads nothing is not repeated, so [length s] rounds are
    enough ([fuel]). *)
Fixpoint star_loop (body : option char → pystr → option pystr → cont → option R)
    (k : cont) (fuel : nat) (prev : option char) (s : pystr)
    (g : option pystr) : option R :=
  match fuel with
  | 0 => k prev s g
  | S fuel' =>
      match body prev s g
              (λ prev' s' g',
                 if length s' <? length s
                 then star_loop body k fuel' prev' s' g' else None) with
      | Some x => Some x
      | None => k prev s g
      end
  end.

(** The backtracking matcher, in continuation-passing style: [k]
    continues after [r], and its failure ([None]) makes the matcher
    try the next alternative. *)
Fixpoint rmatch (r : regex) (prev : option char) (s : pystr)
    (g : option pystr) (k : cont) : option R :=
  match r with
  | Lit l =>
      match strip_prefix l s with
      | Some s' => k (prev_after prev l) s' g
      | None => None
      end
  | Cls p =>
      match s with
      | c :: s' => if p c then k (Some c) s' g else None
      | [] => None
      end
  | Bol => if at_bol prev then k prev s g else None
  | Cat r1 r2 =>
      rmatch r1 prev s g (λ prev' s' g', rmatch r2 prev' s' g' k)
  | Opt r1 =>
      match rmatch r1 prev s g k with
      | Some x => Some x
      | None => k prev s g
      end
  | Star r1 => star_loop (rmatch r1) k (length s) prev s g
  | Grp r1 =>
      rmatch r1 prev s g
        (λ prev' s' _, k prev' s' (Some (take (length s - length s') s)))
  end.
End Matcher.

(** A match at the cursor: the text of group 1 ([None] when the pattern
    has no group or the group took no part) and the number of
    characters of the match. *)
Definition try_at (ml : bool) (r : regex) (prev : option char) (s : pystr)
    : option (option pystr * nat) :=
  rmatch ml r prev s None (λ _ s' g, Some (g, length s - length s')).

(** [m.group(1)] of [m = re.match(r, s)], when there is a match. *)
Definition re_match (ml : bool) (r : regex) (s : pystr)
    : option (option pystr) :=
  fst <$> try_at ml r None s.

(** What [re.findall] lists for a group. *)
Definition group_text (g : option pystr) : pystr := default [] g.

(** [re.findall(r, s)] for a pattern with one group: a left-to-right
    scan; [skip] counts the characters still covered by the last match,
    where no match is tried. An empty match is listed and the scan
    goes on with the next character. *)
Fixpoint findall_from (ml : bool) (r : regex) (prev : option char)
    (s : pystr) (skip : nat) : list pystr :=
  match s with
  | [] =>
      match skip with
      | 0 => match try_at ml r prev [] with
             | Some (g, _) => [group_text g]
             | None => []
             end
      | S _ => []
      end
  | c :: s' =>
      match skip with
      | S n => findall_from ml r (Some c) s' n
      | 0 =>
          match try_at ml r prev s with
          | Some (g, n) => group_text g :: findall_from ml r (Some c) s' (pred n)
          | None => findall_from ml r (Some c) s' 0
          end
      end
  end.

Definition re_findall (ml : bool) (r : regex) (s : pystr) : list pystr :=
  findall_from ml r None s 0.

(** [re.split(r, s)] for a pattern without group: [cur] is the piece
    being read, which a match closes. *)
Fixpoint split_from (ml : bool) (r : regex) (prev : option char)
    (s : pystr) (skip : nat) (cur : pystr) : list pystr :=
  match s with
  | [] =>
      match skip with
      | 0 => match try_at ml r prev [] with
             | Some _ => [cur; []]
             | None => [cur]
             end
      | S _ => [cur]
      end
  | c :: s' =>
      match skip with
      | S n => split_from ml r (Some c) s' n cur
      | 0 =>
          match try_at ml r prev s with
          | Some (_, S n) => cur :: split_from ml r (Some c) s' n []
          | Some (_, 0) => cur :: split_from ml r (Some c) s' 0 [c]
          | None => split_from ml r (Some c) s' 0 (cur ++ [c])
          end
      end
  end.

Definition re_split (ml : bool) (r : regex) (s : pystr) : list pystr :=
  split_from ml r None s 0 [].

(** ** The world outside the program *)

(** [datetime.date]; [str(d)] is the ISO form. *)
Record date := Date { year : nat; month : nat; day : nat }.

Definition str_of_date (d : date) : pystr :=
  zero_pad 4 (year d) ++ py "-" ++ zero_pad 2 (month d)
  ++ py "-" ++ zero_pad 2 (day d).

(** The regular files, by path, with the text stored in each. *)
Abbreviation files := (gmap (list N) (list N)).

(** [os.path.join(a, b)] of [posixpath]. *)
Definition path_join (a b : pystr) : pystr :=
  if startswith b (py "/") then b
  else if negb (truthy a) || bool_decide (last a = Some 47%N) then a ++ b
  else a ++ py "/" ++ b.

(** [os.path.exists(path)]. *)
Definition path_exists (fs : files) (path : pystr) : bool :=
  bool_decide (is_Some (fs !! path)).

(** [open(path, "w").write(text)]: the file is created or truncated. *)
Definition write_text (fs : files) (path text : pystr) : files :=
  <[path := text]> fs.

(** [open(path, "a").write(text)]: the file is created when missing and
    the text goes after what it holds. *)
Definition append_text (fs : files) (path text : pystr) : files :=
  <[path := default [] (fs !! path) ++ text]> fs.

(** Universal newlines: what text-mode reading makes of the stored
    characters. CR LF and a lone CR are read as LF; [after_cr] tells
    that the last character was a CR. *)
Fixpoint translate_newlines (after_cr : bool) (s : pystr) : pystr :=
  match s with
  | [] => []
  | c :: s' =>
      if (c =? CR)%N then LF :: translate_newlines true s'
      else if after_cr && (c =? LF)%N then translate_newlines false s'
      else c :: translate_newlines false s'
  end.

Definition universal_newlines (s : pystr) : pystr :=
  translate_newlines false s.

(** [open(path, "r").read()] of an existing file. *)
Definition read_text (fs : files) (path : pystr) : option pystr :=
  universal_newlines <$> fs !! path.

(** ** graveyard.py *)

Definition DQUOTE : char := 34%N.

Definition GRAVEYARD_HEADER : pystr :=
  py "# " ++ [FEATHER] ++ py " GRAVEYARD.md" ++ [LF; LF]
  ++ py "*Here lie the fallen code, remembered but no longer needed.*"
  ++ [LF; LF] ++ py "---" ++ [LF].

Definition get_graveyard_path (repo_root : pystr) : pystr :=
  path_join repo_root (py "GRAVEYARD.md").

Definition ensure_graveyard (fs : files) (repo_root : pystr) : files :=
  let path := get_graveyard_path repo_root in
  if negb (path_exists fs path) then write_text fs path GRAVEYARD_HEADER
  else fs.

(** One obituary line inside the blockquote. *)
Definition blockquote (line : pystr) : pystr :=
  if truthy (strip line) then py "> " ++ line ++ [LF] else py ">" ++ [LF].

(** The record text [append_obituary] builds: [entry_lines] joined. *)
Definition format_entry (today : date) (filename obituary : pystr)
    (metadata : option (gmap string pystr)) : pystr :=
  let meta := default ∅ metadata in
  let born := default (py "unknown") (meta !! "born") in
  let died := default (str_of_date today) (meta !! "died") in
  let reason := default (py "Unknown") (meta !! "reason") in
  let last_words := default [] (meta !! "last_words") in
  let entry_lines :=
    [ [LF] ++ py "## " ++ filename ++ [LF];
      py "**Lived:** " ++ born ++ py " " ++ [EM_DASH] ++ py " " ++ died
        ++ py "  " ++ [LF];
      py "**Cause of death:** " ++ reason ++ py "  " ++ [LF] ] in
  let entry_lines :=
    if truthy last_words then
      entry_lines ++ [ py "**Last words:** `" ++ [DQUOTE]
                       ++ take 80 last_words ++ py "..." ++ [DQUOTE]
                       ++ py "`" ++ [LF] ]
    else entry_lines in
  let entry_lines := entry_lines ++ [[LF]] in
  let entry_lines := entry_lines ++ (blockquote <$> splitlines obituary) in
  let entry_lines := entry_lines ++ [[LF] ++ py "---" ++ [LF]] in
  concat entry_lines.

(** [append_obituary]: the files after the call and the returned entry.
    [today] is what [date.today()] answers. *)
Definition append_obituary (today : date) (fs : files)
    (repo_root filename obituary : pystr)
    (metadata : option (gmap string pystr)) : files * pystr :=
  let fs := ensure_graveyard fs repo_root in
  let entry := format_entry today filename obituary metadata in
  let graveyard_path := get_graveyard_path repo_root in
  (append_text fs graveyard_path entry, entry).

(** The dict [list_obituaries] builds for one section. *)
Record obituary_record := Obituary {
  filename : pystr;
  lived : pystr;
  cause : pystr;
  body : pystr
}.

Definition HEADING_RE : regex := Lit ([LF] ++ py "## ").
Definition LIVED_RE : regex :=
  Lit (py "**Lived:**") +> Star (Cls isspace) +> Grp (Plus (Cls dot)).
Definition CAUSE_RE : regex :=
  Lit (py "**Cause of death:**") +> Star (Cls isspace) +> Grp (Plus (Cls dot)).
Definition BODY_RE : regex :=
  Bol +> Lit (py ">") +> Opt (Cls isspace) +> Grp (Star (Cls dot)).

(** The body of the loop over [lines[1:]]; the state is
    [(lived, cause, body_lines)]. The group of each pattern is
    mandatory, so [group(1)] is a string whenever there is a match. *)
Definition scan_line (st : pystr * pystr * list pystr) (line : pystr)
    : pystr * pystr * list pystr :=
  let '(lived, cause, body_lines) := st in
  let lived_match := re_match false LIVED_RE line in
  let cause_match := re_match false CAUSE_RE line in
  let body_match := re_match false BODY_RE line in
  match lived_match, cause_match, body_match with
  | Some g, _, _ =>
      (rstrip_chars (py "  ") (strip (group_text g)), cause, body_lines)
  | None, Some g, _ =>
      (lived, rstrip_chars (py "  ") (strip (group_text g)), body_lines)
  | None, None, Some g => (lived, cause, body_lines ++ [group_text g])
  | None, None, None => st
  end.

(** One iteration of the loop over [sections[1:]]: [None] is the
    [continue] on a section without lines. *)
Definition parse_section (section : pystr) : option obituary_record :=
  match splitlines section with
  | [] => None
  | first :: rest =>
      let '(lived, cause, body_lines) := foldl scan_line ([], [], []) rest in
      Some {| filename := strip first;
              lived := lived;
              cause := cause;
              body := strip (join (py " ") body_lines) |}
  end.

Definition list_obituaries (fs : files) (repo_root : pystr)
    : list obituary_record :=
  let path := get_graveyard_path repo_root in
  match read_text fs path with
  | None => []                      (* not os.path.exists(path) *)
  | Some content =>
      let sections := re_split false HEADING_RE content in
      omap parse_section (drop 1 sections)
  end.

Definition NO_GRAVEYARD : pystr :=
  py "No GRAVEYARD.md found. No code has been mourned yet.".

Definition read_graveyard (fs : files) (repo_root : pystr) : pystr :=
  let path := get_graveyard_path repo_root in
  match read_text fs path with
  | None => NO_GRAVEYARD            (* not os.path.exists(path) *)
  | Some content => content
  end.

(** ** analyzer.py *)

Definition ident_start (c : char) : bool :=
  ((97 <=? c) && (c <=? 122) || (65 <=? c) && (c <=? 90) || (c =? 95))%N.

Definition ident_char (c : char) : bool :=
  ident_start c || ((48 <=? c) && (c <=? 57))%N.

(** [[a-zA-Z_][a-zA-Z0-9_]*] *)
Definition IDENT : regex := Cls ident_start +> Star (Cls ident_char).

Definition FUNCTION_RE : regex :=
  Bol +> Star (Cls isspace)
  +> Opt (Lit (py "async") +> Plus (Cls isspace))
  +> Lit (py "def") +> Plus (Cls isspace)
  +> Grp IDENT
  +> Star (Cls isspace) +> Lit (py "(").

Definition CLASS_RE : regex :=
  Bol +> Star (Cls isspace)
  +> Lit (py "class") +> Plus (Cls isspace)
  +> Grp IDENT
  +> Star (Cls isspace) +> Cls (λ c, (c =? 40)%N || (c =? 58)%N).

Record symbols := Symbols { functions : list pystr; classes : list pystr }.

Definition extract_symbols (content : pystr) : symbols :=
  {| functions := re_findall true FUNCTION_RE content;
     classes := re_findall true CLASS_RE content |}.

(** [s.rfind(c)], [None] for -1. *)
Fixpoint rfind (c : char) (s : pystr) : option nat :=
  match s with
  | [] => None
  | x :: s' =>
      match rfind c s' with
      | Some i => Some (S i)
      | None => if (x =? c)%N then Some 0 else None
      end
  end.

(** [os.path.splitext(p)[1]] of [posixpath]: from the last dot on, when
    that dot comes after the last [/] and after a character of the file
    name that is not a dot. *)
Definition splitext_ext (p : pystr) : pystr :=
  match rfind 46%N p with
  | None => []
  | Some dotIndex =>
      let filenameIndex :=
        match rfind 47%N p with
        | Some sepIndex => if sepIndex <? dotIndex then Some (S sepIndex) else None
        | None => Some 0
        end in
      match filenameIndex with
      | Some fi =>
          if existsb (λ c, negb (c =? 46)%N) (take (dotIndex - fi) (drop fi p))
          then drop dotIndex p else []
      | None => []
      end
  end.

(** [s.lower()] as far as the extension tables can tell: the ASCII
    letters, and the Kelvin sign, the one other code point whose lower
    case is ASCII. The keys of the tables are ASCII. *)
Definition lower_char (c : char) : char :=
  if ((65 <=? c) && (c <=? 90))%N then (c + 32)%N
  else if (c =? 0x212A)%N then 107%N else c.

Definition lower (s : pystr) : pystr := lower_char <$> s.

Definition ext_roles : gmap (list N) (list N) :=
  list_to_map
    [ (py ".py", py "faithfully served the Python runtime");
      (py ".js", py "brought interactivity to the browser");
      (py ".ts", py "ensured type safety across the codebase");
      (py ".java", py "upheld the Java virtual machine's grand tradition");
      (py ".rb", py "embraced the principle of programmer happiness");
      (py ".go", py "kept concurrency simple and efficient");
      (py ".rs", py "compiled without fear of memory errors");
      (py ".sh", py "automated the mundane so humans didn't have to");
      (py ".sql", py "guarded the sanctity of relational data");
      (py ".css", py "kept the UI beautiful and consistent");
      (py ".html", py "structured content for the world to see") ].

Definition generate_template_obituary (filename content : pystr)
    (born died reason : option pystr) : pystr :=
  let symbols := extract_symbols content in
  let lines := splitlines content in
  let ext := lower (splitext_ext filename) in
  let role := default (py "contributed to the project") (ext_roles !! ext) in
  let lifetime :=
    if otruthy born && otruthy died then
      py " from " ++ ostr born ++ py " to " ++ ostr died
    else if otruthy died then py " until " ++ ostr died
    else [] in
  let cause :=
    if otruthy reason then py " due to: " ++ ostr reason
    else py " in the natural course of refactoring" in
  let all_symbols := classes symbols ++ functions symbols in
  let survivor_line :=
    if truthy all_symbols then
      py " It is survived by the memories of `"
      ++ join (py "`, `") (take 3 all_symbols) ++ py "`."
    else [] in
  let non_empty :=
    strip <$> List.filter
      (λ line, truthy (strip line) && negb (startswith (strip line) (py "#")))
      lines in
  let last_words :=
    match non_empty with
    | first :: _ =>
        [LF; LF] ++ py "*Last words: " ++ [DQUOTE] ++ take 60 first
        ++ py "..." ++ [DQUOTE] ++ py "*"
    | [] => []
    end in
  filename ++ py " " ++ role ++ lifetime ++ py ", spanning "
  ++ str_of_nat (length lines) ++ py " lines of code. "
  ++ py "It was deleted" ++ cause ++ py "." ++ survivor_line
  ++ last_words.

(** What the attempt to use the text service ends in: the text of the
    first content block of the reply, or an [Exception] raised on the
    way (the import, the client, the request, the shape of the reply),
    with its [str(e)]. *)
Inductive outcome : Type :=
  | Returned (text : pystr)
  | Raised (e : pystr).

(** The service: from the API key and the prompt to an outcome. *)
Definition text_service : Type := pystr → pystr → outcome.

Definition ai_prompt (filename content : pystr)
    (reason born died : option pystr) : pystr :=
  let symbols := extract_symbols content in
  let lines := splitlines content in
  let lifetime_str :=
    if otruthy born && otruthy died then
      py "It was created on " ++ ostr born ++ py " and deleted on "
      ++ ostr died ++ py "."
    else if otruthy died then py "It was deleted on " ++ ostr died ++ py "."
    else [] in
  let cause_str :=
    if otruthy reason then py "Cause of death: " ++ ostr reason
    else py "Cause of death: unknown (likely refactoring or replacement)." in
  let symbols_str :=
    if truthy (classes symbols) || truthy (functions symbols) then
      let parts := [] in
      let parts :=
        if truthy (classes symbols)
        then parts ++ [py "Classes: " ++ join (py ", ") (classes symbols)]
        else parts in
      let parts :=
        if truthy (functions symbols)
        then parts ++ [py "Functions: " ++ join (py ", ") (functions symbols)]
        else parts in
      join (py ". ") parts ++ py "."
    else [] in
  let content_preview :=
    if 2000 <? length content then take 2000 content else content in
  py "You are writing a poetic, brief obituary for a deleted piece of code."
  ++ [LF]
  ++ py "Write 3-5 sentences in a respectful, slightly melancholy tone like an obituary in a newspaper."
  ++ [LF]
  ++ py "Mention what the code did, how long it lived, and what caused its deletion."
  ++ [LF]
  ++ py "Be creative but concise. Do not use markdown headers. Plain prose only."
  ++ [LF; LF]
  ++ py "File: " ++ filename ++ [LF]
  ++ py "Lines of code: " ++ str_of_nat (length lines) ++ [LF]
  ++ lifetime_str ++ [LF]
  ++ cause_str ++ [LF]
  ++ symbols_str ++ [LF; LF]
  ++ py "Code content (preview):" ++ [LF]
  ++ py "```" ++ [LF]
  ++ content_preview ++ [LF]
  ++ py "```" ++ [LF; LF]
  ++ py "Write the obituary now:".

Definition _generate_ai_obituary (service : text_service)
    (filename content : pystr) (reason born died : option pystr)
    (api_key : pystr) : pystr :=
  match service api_key (ai_prompt filename content reason born died) with
  | Returned text => strip text
  | Raised e =>
      generate_template_obituary filename content born died reason
      ++ [LF; LF] ++ py "*(AI obituary unavailable: " ++ e ++ py ")*"
  end.

(** [environ] is [os.environ]. *)
Definition generate_obituary (environ : gmap string (list N))
    (service : text_service) (filename content : pystr)
    (reason born died : option pystr) : pystr :=
  let api_key := environ !! "ANTHROPIC_API_KEY" in
  if otruthy api_key then
    _generate_ai_obituary service filename content reason born died
      (default [] api_key)
  else generate_template_obituary filename content born died reason.

(** ** Other programs: [subprocess.run]

    What running a command ends in: the process completed, with its
    return code and its standard output as text, or the call raised
    (the program is missing, the timeout passed). The commands the
    program runs only read the state of git, so the answers are a
    function of the command line. *)
Inductive exn : Type :=
  | CalledProcessError
  | TimeoutExpired
  | FileNotFoundError
  | IsADirectoryError
  | PermissionError
  | ValueError
  | RuntimeError (msg : pystr).

Inductive run_outcome : Type :=
  | Completed (returncode : Z) (stdout : pystr)
  | Failed (e : exn).

Definition commands : Type := list pystr → run_outcome.

(** [subprocess.run(..., check=True).stdout]: a return code other than
    zero raises [CalledProcessError]. *)
Definition run_checked (o : run_outcome) : exn + pystr :=
  match o with
  | Completed returncode stdout =>
      if (returncode =? 0)%Z then inr stdout else inl CalledProcessError
  | Failed e => inl e
  end.

(** ** analyzer.py, the description and the dates *)

(** [get_git_dates]: the pair [(born, died)]. The return code is not
    looked at, and every exception gives [(None, None)]. *)
Definition get_git_dates (git : commands) (filepath : pystr)
    : option pystr * option pystr :=
  match git [py "git"; py "log"; py "--follow"; py "--format=%as";
             py "--"; filepath] with
  | Completed _ stdout =>
      let dates :=
        strip <$> List.filter (λ d, truthy (strip d))
                    (splitlines (strip stdout)) in
      if truthy dates then (last dates, head dates) else (None, None)
  | Failed _ => (None, None)
  end.

Definition ext_map : gmap (list N) (list N) :=
  list_to_map
    [ (py ".py", py "Python module");
      (py ".js", py "JavaScript module");
      (py ".ts", py "TypeScript module");
      (py ".tsx", py "React TypeScript component");
      (py ".jsx", py "React JavaScript component");
      (py ".java", py "Java class");
      (py ".rb", py "Ruby script");
      (py ".go", py "Go source file");
      (py ".rs", py "Rust source file");
      (py ".c", py "C source file");
      (py ".cpp", py "C++ source file");
      (py ".cs", py "C# source file");
      (py ".sh", py "Shell script");
      (py ".sql", py "SQL script");
      (py ".yaml", py "YAML configuration");
      (py ".yml", py "YAML configuration");
      (py ".json", py "JSON configuration");
      (py ".md", py "Markdown document");
      (py ".html", py "HTML template");
      (py ".css", py "CSS stylesheet") ].

Definition get_file_description (filename content : pystr) : pystr :=
  let ext := lower (splitext_ext filename) in
  let symbols := extract_symbols content in
  let lines := splitlines content in
  let file_type := default (py "source file") (ext_map !! ext) in
  let desc_parts :=
    [ filename ++ py " was a " ++ file_type ++ py " with "
      ++ str_of_nat (length lines) ++ py " lines" ] in
  let desc_parts :=
    if truthy (classes symbols) then
      desc_parts ++ [ py "containing the classes: "
                      ++ join (py ", ") (take 5 (classes symbols)) ]
    else desc_parts in
  let desc_parts :=
    if truthy (functions symbols) then
      desc_parts ++ [ py "defining the functions: "
                      ++ join (py ", ") (take 5 (functions symbols)) ]
    else desc_parts in
  join (py ". ") desc_parts ++ py ".".

(** ** hook.py *)

Definition HOOK_LINES : list pystr :=
  [
    py "#!/usr/bin/env bash";
    py "# code-obituary pre-commit hook";
    py "# Automatically generates obituaries for deleted files.";
    [];
    py "set -e";
    [];
    py "# Check if code-obituary is installed";
    py "if ! command -v code-obituary &> /dev/null; then";
    py "    echo " ++ [DQUOTE] ++ py "[code-obituary] WARNING: code-obituary not found in PATH, skipping hook." ++ [DQUOTE];
    py "    exit 0";
    py "fi";
    [];
    py "# Get list of deleted files from the staged changes";
    py "DELETED_FILES=$(git diff --cached --diff-filter=D --name-only)";
    [];
    py "if [ -z " ++ [DQUOTE] ++ py "$DELETED_FILES" ++ [DQUOTE] ++ py " ]; then";
    py "    exit 0";
    py "fi";
    [];
    py "echo " ++ [DQUOTE] ++ py "[code-obituary] Mourning deleted files..." ++ [DQUOTE];
    py "REPO_ROOT=$(git rev-parse --show-toplevel)";
    [];
    py "while IFS= read -r filepath; do";
    py "    if [ -n " ++ [DQUOTE] ++ py "$filepath" ++ [DQUOTE] ++ py " ]; then";
    py "        echo " ++ [DQUOTE] ++ py "[code-obituary] Writing obituary for: $filepath" ++ [DQUOTE];
    py "        # Get the file content from HEAD (before deletion)";
    py "        code-obituary mourn " ++ [DQUOTE] ++ py "$filepath" ++ [DQUOTE] ++ py " --from-git || true";
    py "    fi";
    py "done <<< " ++ [DQUOTE] ++ py "$DELETED_FILES" ++ [DQUOTE];
    [];
    py "echo " ++ [DQUOTE] ++ py "[code-obituary] Obituaries written to GRAVEYARD.md" ++ [DQUOTE];
    py "# Stage the updated GRAVEYARD.md if it exists";
    py "if [ -f " ++ [DQUOTE] ++ py "$REPO_ROOT/GRAVEYARD.md" ++ [DQUOTE] ++ py " ]; then";
    py "    git add " ++ [DQUOTE] ++ py "$REPO_ROOT/GRAVEYARD.md" ++ [DQUOTE];
    py "fi" ].

(** The script ends each of its lines with LF. *)
Definition HOOK_SCRIPT : pystr := join [LF] HOOK_LINES ++ [LF].

(** A file of the hooks directory: its mode bits ([st_mode]), the
    text it stores, and whether the process may change its mode: it
    owns the file or is privileged ([os.chmod] raises [PermissionError]
    otherwise). *)
Record inode := Inode { st_mode : N; data : pystr; owned : bool }.

(** The files and the directories, by path. *)
Record hook_fs := HookFs {
  inodes : gmap (list N) inode;
  directories : gset (list N)
}.

Definition S_IFREG : N := 0x8000%N.
(** [stat.S_IXUSR | stat.S_IXGRP | stat.S_IXOTH] *)
Definition S_IXUGO : N := 0x49%N.

(** [get_hooks_dir]: without a root, git is asked; its failure is not
    caught here. *)
Definition get_hooks_dir (git : commands) (repo_root : option pystr)
    : exn + pystr :=
  match repo_root with
  | None =>
      match run_checked (git [py "git"; py "rev-parse"; py "--show-toplevel"]) with
      | inl e => inl e
      | inr stdout =>
          inr (path_join (path_join (strip stdout) (py ".git")) (py "hooks"))
      end
  | Some repo_root =>
      inr (path_join (path_join repo_root (py ".git")) (py "hooks"))
  end.

(** [install_hook]: the files after the call, and the path returned or
    the exception raised. [umask] is the file mode creation mask of the
    process. Files can be read and written by the process; a file it
    creates is its own. The mode is changed after the text was written,
    so a refused [os.chmod] leaves the appended text behind. *)
Definition install_hook (git : commands) (umask : N) (w : hook_fs)
    (repo_root : option pystr) : hook_fs * (exn + pystr) :=
  match get_hooks_dir git repo_root with
  | inl e => (w, inl e)
  | inr hooks_dir =>
      if negb (bool_decide (hooks_dir ∈ directories w)) then
        (w, inl (RuntimeError
                   (py "No .git/hooks directory found at " ++ hooks_dir
                    ++ py ". " ++ py "Are you inside a git repository?")))
      else
        let hook_path := path_join hooks_dir (py "pre-commit") in
        if bool_decide (hook_path ∈ directories w) then
          (w, inl IsADirectoryError)          (* open(hook_path, "r") *)
        else
          match inodes w !! hook_path with
          | Some node =>
              let existing := universal_newlines (data node) in
              if contains existing (py "code-obituary") then
                (w, inr hook_path)            (* already installed *)
              else
                let body := join [LF] (drop 1 (splitlines HOOK_SCRIPT)) in
                let text :=
                  data node
                  ++ ([LF; LF] ++ py "# --- code-obituary hook ---" ++ [LF])
                  ++ body in
                let current := st_mode node in
                if owned node then
                  (HookFs (<[hook_path :=
                               Inode (N.lor current S_IXUGO) text true]>
                             (inodes w))
                          (directories w),
                   inr hook_path)
                else                          (* os.chmod(hook_path, ...) *)
                  (HookFs (<[hook_path := Inode current text false]>
                             (inodes w))
                          (directories w),
                   inl PermissionError)
          | None =>
              let current := N.lor S_IFREG (N.ldiff 0x1B6 umask) in
              (HookFs (<[hook_path :=
                           Inode (N.lor current S_IXUGO) HOOK_SCRIPT true]>
                         (inodes w))
                      (directories w),
               inr hook_path)
          end
  end.

(** [get_deleted_files_from_git]: only [CalledProcessError] is caught. *)
Definition get_deleted_files_from_git (git : commands)
    : exn + list pystr :=
  match run_checked (git [py "git"; py "diff"; py "--cached";
                          py "--diff-filter=D"; py "--name-only"]) with
  | inr stdout =>
      inr (strip <$> List.filter (λ f, truthy (strip f)) (splitlines stdout))
  | inl CalledProcessError => inr []
  | inl e => inl e
  end.

(** [get_file_content_from_git]: every exception gives [None]. *)
Definition get_file_content_from_git (git : commands) (filepath : pystr)
    : option pystr :=
  match git [py "git"; py "show"; py "HEAD:" ++ filepath] with
  | Completed returncode stdout =>
      if (returncode =? 0)%Z then Some stdout else None
  | Failed _ => None
  end.

(** [get_repo_root]: only [CalledProcessError] is caught. *)
Definition get_repo_root (git : commands) : exn + option pystr :=
  match run_checked (git [py "git"; py "rev-parse"; py "--show-toplevel"]) with
  | inr stdout => inr (Some (strip stdout))
  | inl CalledProcessError => inr None
  | inl e => inl e
  end.

(** ** cli.py *)

(** What the commands find around them: git, [os.path.relpath] (which
    depends on the working directory; [None] is its [ValueError]),
    [os.getcwd()], [os.environ], the text service and today's date. *)
Record cli_world := CliWorld {
  w_git : commands;
  w_relpath : pystr → pystr → option pystr;
  w_cwd : pystr;
  w_environ : gmap string (list N);
  w_service : text_service;
  w_today : date
}.

(** [repo_root or get_repo_root() or os.getcwd()] *)
Definition resolve_repo_root (w : cli_world) (repo_root : option pystr)
    : exn + pystr :=
  if otruthy repo_root then inr (ostr repo_root)
  else
    match get_repo_root (w_git w) with
    | inl e => inl e
    | inr found => if otruthy found then inr (ostr found) else inr (w_cwd w)
    end.

(** [os.path.basename(p)] of [posixpath]. *)
Definition basename (p : pystr) : pystr :=
  match rfind 47%N p with
  | Some i => drop (S i) p
  | None => p
  end.

(** The loop of [mourn] that picks the last words: the first line that,
    stripped, is neither empty nor a [#] or [//] comment, cut at 80. *)
Fixpoint first_last_words (lines : list pystr) : pystr :=
  match lines with
  | [] => []
  | line :: lines' =>
      let stripped := strip line in
      if truthy stripped && negb (startswith stripped (py "#"))
         && negb (startswith stripped (py "//"))
      then take 80 stripped
      else first_last_words lines'
  end.

(** [mourn]: the exception that escapes, or the files after the call
    and the entry appended. What goes to the console is left out.
    Files can be read by the process, so the [sys.exit(1)] of a failed
    read has no place here. *)
Definition mourn (w : cli_world) (fs : files) (filepath : pystr)
    (reason : option pystr) (from_git : bool) (repo_root : option pystr)
    : exn + (files * pystr) :=
  match resolve_repo_root w repo_root with
  | inl e => inl e
  | inr repo_root =>
      let display_name :=
        match w_relpath w filepath repo_root with
        | Some rel => rel
        | None => basename filepath           (* except ValueError *)
        end in
      let from_head : exn + option pystr :=
        if from_git then
          match get_file_content_from_git (w_git w) filepath with
          | Some content => inr (Some content)
          | None =>
              if truthy repo_root then
                match w_relpath w filepath repo_root with
                | Some rel => inr (get_file_content_from_git (w_git w) rel)
                | None => inl ValueError
                end
              else inr (get_file_content_from_git (w_git w) filepath)
          end
        else inr None in
      match from_head with
      | inl e => inl e
      | inr content =>
          let content :=
            match content with
            | Some content => Some content
            | None => read_text fs filepath   (* if os.path.exists(filepath) *)
            end in
          let content :=
            match content with
            | Some content => content
            | None =>
                py "# " ++ display_name ++ [LF]
                ++ py "# (content not available)" ++ [LF]
            end in
          let '(born, died_date) := get_git_dates (w_git w) filepath in
          let died_str :=
            if otruthy died_date then ostr died_date
            else str_of_date (w_today w) in
          let lines := splitlines content in
          let last_words := first_last_words lines in
          let obituary :=
            generate_obituary (w_environ w) (w_service w) display_name content
              reason born (Some died_str) in
          let metadata : gmap string (list N) :=
            {[ "born" := if otruthy born then ostr born else py "unknown";
               "died" := died_str;
               "reason" := if otruthy reason then ostr reason
                           else py "Deleted (cause unknown)";
               "last_words" := last_words ]} in
          inr (append_obituary (w_today w) fs repo_root display_name obituary
                 (Some metadata))
      end
  end.

(** What [view] sends to the console. *)
Inductive rendering : Type :=
  | Yellow (text : pystr)
  | Markdown (text : pystr).

Definition view (w : cli_world) (fs : files) (repo_root : option pystr)
    : exn + rendering :=
  match resolve_repo_root w repo_root with
  | inl e => inl e
  | inr repo_root =>
      let content := read_graveyard fs repo_root in
      if startswith content (py "No GRAVEYARD.md") then inr (Yellow content)
      else inr (Markdown content)
  end.

(** What [install] ends in: the panel with the path of the hook, or
    [sys.exit(1)] after the message printed. *)
Inductive install_result : Type :=
  | Installed (hook_path : pystr)
  | ExitError (message : pystr).

(** [install]: the files after the call, and how the command ends or
    the exception that escapes. *)
Definition install (w : cli_world) (umask : N) (hfs : hook_fs)
    (repo_root : option pystr) : hook_fs * (exn + install_result) :=
  let found : exn + option pystr :=      (* repo_root or get_repo_root() *)
    if otruthy repo_root then inr repo_root else get_repo_root (w_git w) in
  match found with
  | inl e => (hfs, inl e)
  | inr None =>
      (hfs, inr (ExitError
                   (py "[red]Error: Not inside a git repository. "
                    ++ py "Run this command from within a git repo.[/red]")))
  | inr (Some repo_root) =>
      match install_hook (w_git w) umask hfs (Some repo_root) with
      | (hfs', inr hook_path) => (hfs', inr (Installed hook_path))
      | (hfs', inl (RuntimeError msg)) =>
          (hfs', inr (ExitError (py "[red]Error: " ++ msg ++ py "[/red]")))
      | (hfs', inl e) => (hfs', inl e)
      end
  end.

(** The excerpt of the body that [list] shows. *)
Definition excerpt (body : pystr) : pystr :=
  if 80 <? length body then take 80 body ++ py "..." else body.

(** What [list] sends to the console: the message of the empty
    graveyard, or the rows of the table and the total under it. *)
Inductive listing : Type :=
  | EmptyGraveyard
  | Table (rows : list (pystr * pystr * pystr * pystr)) (total : nat).

Definition table_row (obit : obituary_record)
    : pystr * pystr * pystr * pystr :=
  (filename obit, lived obit, cause obit, excerpt (body obit)).

Definition list_cmd (w : cli_world) (fs : files) (repo_root : option pystr)
    : exn + listing :=
  match resolve_repo_root w repo_root with
  | inl e => inl e
  | inr repo_root =>
      let obituaries := list_obituaries fs repo_root in
      if negb (truthy obituaries) then inr EmptyGraveyard
      else inr (Table (table_row <$> obituaries) (length obituaries))
  end.

(** * The vocabulary of the properties *)

(** [p in s], as a proposition. *)
Definition occurs_in (p s : pystr) : Prop := ∃ pre post, s = pre ++ p ++ post.

(** [derives ml r prev w g g']: the pattern [r] accepts the text [w]
    read after the character [prev], taking the capture from [g] to
    [g']. This is what the patterns mean, stated without the matcher. *)
Inductive derives (ml : bool)
    : regex → option char → pystr → option pystr → option pystr → Prop :=
  | derives_lit l prev g : derives ml (Lit l) prev l g g
  | derives_cls (p : char → bool) c prev g :
      p c = true → derives ml (Cls p) prev [c] g g
  | derives_bol prev g : at_bol ml prev = true → derives ml Bol prev [] g g
  | derives_cat r1 r2 prev w1 w2 g g1 g2 :
      derives ml r1 prev w1 g g1 →
      derives ml r2 (prev_after prev w1) w2 g1 g2 →
      derives ml (r1 +> r2) prev (w1 ++ w2) g g2
  | derives_opt_some r prev w g g1 :
      derives ml r prev w g g1 → derives ml (Opt r) prev w g g1
  | derives_opt_none r prev g : derives ml (Opt r) prev [] g g
  | derives_star_nil r prev g : derives ml (Star r) prev [] g g
  | derives_star_cons r prev w1 w2 g g1 g2 :
      derives ml r prev w1 g g1 →
      derives ml (Star r) (prev_after prev w1) w2 g1 g2 →
      derives ml (Star r) prev (w1 ++ w2) g g2
  | derives_grp r prev w g g1 :
      derives ml r prev w g g1 → derives ml (Grp r) prev w g (Some w).

(** The matcher [body] of [r] only continues after a text that [r]
    accepts. *)
Definition sound_body {R : Type} (ml : bool) (r : regex)
    (body : option char → pystr → option pystr → cont → option R) : Prop :=
  ∀ prev s g (k : cont) res,
    body prev s g k = Some res →
    ∃ w s' g',
      s = w ++ s' ∧ derives ml r prev w g g'
      ∧ k (prev_after prev w) s' g' = Some res.

(** A name of the shape [[a-zA-Z_][a-zA-Z0-9_]*]. *)
Definition is_identifier (x : pystr) : Prop :=
  ∃ c t, x = c :: t ∧ ident_start c = true
         ∧ Forall (λ c, ident_char c = true) t.

(** The listed texts occur in [text] one after the other, without
    overlap, in the order of the list. *)
Inductive appear_in_order : list pystr → pystr → Prop :=
  | appear_nil text : appear_in_order [] text
  | appear_cons x l pre post :
      appear_in_order l post → appear_in_order (x :: l) (pre ++ x ++ post).

(** The text holds a declaration of the shape of [r]: somewhere in it,
    a piece that [r] accepts after the character before the piece. *)
Definition declaration_shaped (r : regex) (content : pystr) : Prop :=
  ∃ pre w post g,
    content = pre ++ w ++ post ∧ derives true r (last pre) w None g.

(** The text that opens a record section. *)
Definition HEADING : pystr := [LF] ++ py "## ".

(** A decimal digit. *)
Definition isdigit (c : char) : bool := ((48 <=? c) && (c <=? 57))%N.

(** One obituary line of the blockquote, without the LF that ends it. *)
Definition quoted (line : pystr) : pystr :=
  if truthy (strip line) then py "> " ++ line else py ">".

(** Lines, each ended by LF. *)
Definition unlines (ls : list pystr) : pystr :=
  concat ((λ l, l ++ [LF]) <$> ls).

(** The lines of an entry after its heading line. *)
Definition entry_lines_of (today : date) (obituary : pystr)
    (metadata : option (gmap string pystr)) : list pystr :=
  let meta := default ∅ metadata in
  let born := default (py "unknown") (meta !! "born") in
  let died := default (str_of_date today) (meta !! "died") in
  let reason := default (py "Unknown") (meta !! "reason") in
  let last_words := default [] (meta !! "last_words") in
  [ py "**Lived:** " ++ born ++ py " " ++ [EM_DASH] ++ py " " ++ died ++ py "  ";
    py "**Cause of death:** " ++ reason ++ py "  " ]
  ++ (if truthy last_words
      then [ py "**Last words:** `" ++ [DQUOTE] ++ take 80 last_words
             ++ py "..." ++ [DQUOTE] ++ py "`" ]
      else [])
  ++ [[]] ++ (quoted <$> splitlines obituary) ++ [[]; py "---"].

(** A text without newline character: neither LF nor CR, which
    text-mode reading turns into LF. *)
Definition newline_free (s : pystr) : Prop := (LF ∉ s) ∧ (CR ∉ s).

(** No value of the metadata holds a newline character. *)
Definition metadata_newline_free (metadata : option (gmap string pystr))
    : Prop :=
  ∀ key value, default ∅ metadata !! key = Some value → newline_free value.

(** The section an entry adds to the log: the entry without its
    heading marker. *)
Definition entry_section (today : date) (filename obituary : pystr)
    (metadata : option (gmap string pystr)) : pystr :=
  filename ++ [LF] ++ unlines (entry_lines_of today obituary metadata).

(** The metadata of the round trip, and the dates as [lived] has them. *)
Definition ROUND_TRIP_METADATA : option (gmap string pystr) :=
  Some {[ "born" := py "2020-01-01"; "died" := py "2024-12-31";
          "reason" := py "R" ]}.

Definition ROUND_TRIP_LIVED : pystr :=
  py "2020-01-01 " ++ [EM_DASH] ++ py " 2024-12-31".

(** A text without line boundary of [str.splitlines]. *)
Definition line_free (s : pystr) : Prop :=
  Forall (λ c, islinebreak c = false) s.

(** No value of the metadata holds a line boundary. *)
Definition metadata_line_free (metadata : option (gmap string pystr)) : Prop :=
  ∀ key value, default ∅ metadata !! key = Some value → line_free value.

(** What the listing gives back of one obituary line: the line, or
    nothing for a blank one. *)
Definition body_piece (line : pystr) : pystr :=
  if truthy (strip line) then line else [].

(** The record an appended entry is read back as. *)
Definition appended_record (today : date) (filename obituary : pystr)
    (metadata : option (gmap string pystr)) : obituary_record :=
  let meta := default ∅ metadata in
  let born := default (py "unknown") (meta !! "born") in
  let died := default (str_of_date today) (meta !! "died") in
  let reason := default (py "Unknown") (meta !! "reason") in
  {| filename := strip filename;
     lived := strip (born ++ py " " ++ [EM_DASH] ++ py " " ++ died);
     cause := strip reason;
     body := strip (join (py " ") (body_piece <$> splitlines obituary)) |}.

(** One call of [append_obituary], and a run of calls on the same log. *)
Record append_call := AppendCall {
  call_today : date;
  call_filename : pystr;
  call_obituary : pystr;
  call_metadata : option (gmap string pystr)
}.

Definition append_all (fs : files) (repo_root : pystr)
    (calls : list append_call) : files :=
  foldl (λ fs c,
           (append_obituary (call_today c) fs repo_root (call_filename c)
              (call_obituary c) (call_metadata c)).1)
    fs calls.

(** The call is within what the listing reads back exactly. *)
Definition plain_call (c : append_call) : Prop :=
  line_free (call_filename c) ∧ metadata_line_free (call_metadata c).

(** All three execute bits are set in the mode. *)
Definition executable (mode : N) : Prop := N.land mode S_IXUGO = S_IXUGO.

(** A line as the program keeps it from the output of git: not empty,
    without outer white space, without a line boundary. *)
Definition tidy (s : pystr) : Prop := s ≠ [] ∧ strip s = s ∧ line_free s.

(** The name [mourn] files the obituary under. *)
Definition display_name_of (w : cli_world) (filepath repo_root : pystr)
    : pystr :=
  default (basename filepath) (w_relpath w filepath repo_root).

(** The cause [mourn] records. *)
Definition recorded_cause (reason : option pystr) : pystr :=
  if otruthy reason then ostr reason else py "Deleted (cause unknown)".

(** An optional text as the conditions of the program see it: the empty
    text is no text. *)
Definition or_none (o : option pystr) : option pystr :=
  if otruthy o then o else None.



(** [r] accepts the empty text, told from its shape. *)
Fixpoint nullable (r : regex) : bool :=
  match r with
  | Lit l => negb (truthy l)
  | Cls _ => false
  | Bol => true
  | Cat r1 r2 => nullable r1 && nullable r2
  | Opt _ => true
  | Star _ => true
  | Grp r1 => nullable r1
  end.

(** Every starred part of [r] reads a character in each round. *)
Fixpoint star_reads (r : regex) : bool :=
  match r with
  | Lit _ => true
  | Cls _ => true
  | Bol => true
  | Cat r1 r2 => star_reads r1 && star_reads r2
  | Opt r1 => star_reads r1
  | Star r1 => negb (nullable r1) && star_reads r1
  | Grp r1 => star_reads r1
  end.

(** A declaration of the shape of [r] starts the text [s], read after
    the character [prev]: [w], which [r] accepts with group [g], is the
    beginning of [s]. *)
Definition starts (r : regex) (prev : option char) (s w : pystr)
    (g : option pystr) : Prop :=
  w `prefix_of` s ∧ derives true r prev w None g.

(** [scanned r prev s names]: [names] are the names of the declarations
    of the shape of [r] that are met when [s] is read from left to right
    after the character [prev]. Where no declaration starts, the
    reading moves on by one character; where one starts, its name is
    listed and the reading goes on after the declaration. *)
Inductive scanned (r : regex) : option char → pystr → list pystr → Prop :=
  | scanned_end prev :
      (∀ w g, ¬ starts r prev [] w g) → scanned r prev [] []
  | scanned_skip prev c s names :
      (∀ w g, ¬ starts r prev (c :: s) w g) →
      scanned r (Some c) s names →
      scanned r prev (c :: s) names
  | scanned_take prev s w g rest names :
      s = w ++ rest → w ≠ [] →
      derives true r prev w None g →
      scanned r (prev_after prev w) rest names →
      scanned r prev s (group_text g :: names).

(** The text stops the run of [p]: it is empty or its first character
    is not of [p]. *)
Definition stops (p : char → bool) (t : pystr) : Prop :=
  match t with [] => True | c :: _ => p c = false end.

(** * Properties *)

(** ** Substrings *)

Lemma startswith_spec (s p : pystr) :
  startswith s p = true ↔ ∃ post, s = p ++ post.
Proof.
  revert s. induction p as [|a p IH]; intros s; simpl.
  - split; [by exists s | done].
  - destruct s as [|b s]; simpl.
    + split; [done | intros [post Hp]; done].
    + rewrite andb_true_iff, IH, N.eqb_eq. split.
      * intros [-> [post ->]]. by exists post.
      * intros [post Hp]. simplify_eq. eauto.
Qed.

Lemma contains_spec (s p : pystr) : contains s p = true ↔ occurs_in p s.
Proof.
  induction s as [|c s IH]; simpl.
  - rewrite orb_false_r, startswith_spec. split.
    + intros [post Hp]. by exists [], post.
    + intros (pre & post & Hp). symmetry in Hp.
      apply app_eq_nil in Hp as [-> Hp]. exists post. done.
  - rewrite orb_true_iff, IH, startswith_spec. split.
    + intros [[post Hp] | (pre & post & Hp)].
      * by exists [], post.
      * exists (c :: pre), post. by rewrite Hp.
    + intros (pre & post & Hp). destruct pre as [|c' pre]; simpl in Hp.
      * left. eauto.
      * right. simplify_eq. by exists pre, post.
Qed.

Lemma not_occurs_in (s p : pystr) : contains s p = false → ¬ occurs_in p s.
Proof. intros Hc Ho. apply contains_spec in Ho. congruence. Qed.

Lemma occurs_in_prefix (p post : pystr) : occurs_in p (p ++ post).
Proof. by exists [], post. Qed.

(** ** The log file: creation, append, reading *)

Lemma path_exists_true (fs : files) (path text : pystr) :
  fs !! path = Some text → path_exists fs path = true.
Proof. intros H. unfold path_exists. rewrite H. by apply bool_decide_eq_true. Qed.

Lemma path_exists_false (fs : files) (path : pystr) :
  fs !! path = None → path_exists fs path = false.
Proof.
  intros H. unfold path_exists. rewrite H.
  apply bool_decide_eq_false. by intros [? ?].
Qed.

Lemma ensure_graveyard_absent (fs : files) (repo_root : pystr) :
  fs !! get_graveyard_path repo_root = None →
  ensure_graveyard fs repo_root
  = <[get_graveyard_path repo_root := GRAVEYARD_HEADER]> fs.
Proof. intros H. unfold ensure_graveyard. by rewrite (path_exists_false _ _ H). Qed.

Lemma ensure_graveyard_present (fs : files) (repo_root text : pystr) :
  fs !! get_graveyard_path repo_root = Some text →
  ensure_graveyard fs repo_root = fs.
Proof. intros H. unfold ensure_graveyard. by rewrite (path_exists_true _ _ _ H). Qed.

Lemma ensure_graveyard_lookup (fs : files) (repo_root : pystr) :
  ensure_graveyard fs repo_root !! get_graveyard_path repo_root
  = Some (default GRAVEYARD_HEADER (fs !! get_graveyard_path repo_root)).
Proof.
  destruct (fs !! get_graveyard_path repo_root) as [text|] eqn:H.
  - by rewrite (ensure_graveyard_present _ _ _ H).
  - rewrite (ensure_graveyard_absent _ _ H). apply lookup_insert_eq.
Qed.

Lemma ensure_graveyard_other (fs : files) (repo_root path : pystr) :
  path ≠ get_graveyard_path repo_root →
  ensure_graveyard fs repo_root !! path = fs !! path.
Proof.
  intros Hne. unfold ensure_graveyard.
  destruct (path_exists _ _); simpl; [done|].
  unfold write_text. by rewrite lookup_insert_ne.
Qed.

(** C5: creating the log is idempotent. On a directory without a log,
    [ensure_graveyard] twice leaves the same log content as once (the
    header); when the log exists, whatever it holds, a call changes
    nothing. *)
Theorem ensure_graveyard_idempotent (fs : files) (repo_root : pystr) :
  (fs !! get_graveyard_path repo_root = None →
     ensure_graveyard (ensure_graveyard fs repo_root) repo_root
     = ensure_graveyard fs repo_root
     ∧ ensure_graveyard fs repo_root !! get_graveyard_path repo_root
       = Some GRAVEYARD_HEADER)
  ∧ (∀ text, fs !! get_graveyard_path repo_root = Some text →
       ensure_graveyard fs repo_root = fs).
Proof.
  split.
  - intros H. split.
    + eapply ensure_graveyard_present, ensure_graveyard_lookup.
    + by rewrite ensure_graveyard_lookup, H.
  - intros text H. by eapply ensure_graveyard_present.
Qed.

Lemma ensure_graveyard_idempotent_witness :
  let root := py "/repo" in
  let path := py "/repo/GRAVEYARD.md" in
  let fs : files := {[ path := py "existing content" ]} in
  (ensure_graveyard (ensure_graveyard ∅ root) root = ensure_graveyard ∅ root
   ∧ ensure_graveyard ∅ root !! path = Some GRAVEYARD_HEADER)
  ∧ ensure_graveyard fs root = fs.
Proof.
  intros root path fs. split.
  - apply (proj1 (ensure_graveyard_idempotent ∅ root)). reflexivity.
  - apply (proj2 (ensure_graveyard_idempotent fs root) (py "existing content")).
    reflexivity.
Defined.

Lemma append_obituary_log (today : date) (fs : files)
    (repo_root filename obituary : pystr)
    (metadata : option (gmap string pystr)) :
  (append_obituary today fs repo_root filename obituary metadata).1
    !! get_graveyard_path repo_root
  = Some (default GRAVEYARD_HEADER (fs !! get_graveyard_path repo_root)
          ++ format_entry today filename obituary metadata).
Proof.
  simpl. unfold append_text. rewrite ensure_graveyard_lookup. simpl.
  apply lookup_insert_eq.
Qed.

Lemma append_obituary_frame (today : date) (fs : files)
    (repo_root filename obituary : pystr)
    (metadata : option (gmap string pystr)) (other : pystr) :
  other ≠ get_graveyard_path repo_root →
  (append_obituary today fs repo_root filename obituary metadata).1 !! other
  = fs !! other.
Proof.
  intros Hne. simpl. unfold append_text. rewrite lookup_insert_ne by done.
  by apply ensure_graveyard_other.
Qed.

(** C4: [append_obituary] returns exactly the text it appended. After
    the call the log holds what it held before (the header, when there
    was no log) followed by the returned entry, and no other file has
    changed. *)
Theorem append_obituary_appends (today : date) (fs : files)
    (repo_root filename obituary : pystr)
    (metadata : option (gmap string pystr)) :
  let path := get_graveyard_path repo_root in
  let prior := default GRAVEYARD_HEADER (fs !! path) in
  let '(fs', entry) :=
    append_obituary today fs repo_root filename obituary metadata in
  fs' !! path = Some (prior ++ entry)
  ∧ (∀ other, other ≠ path → fs' !! other = fs !! other).
Proof.
  pose proof (append_obituary_log today fs repo_root filename obituary
                metadata) as Hlog.
  pose proof (append_obituary_frame today fs repo_root filename obituary
                metadata) as Hframe.
  simpl in *. split; [exact Hlog | exact Hframe].
Qed.

Lemma universal_newlines_id (s : pystr) :
  CR ∉ s → universal_newlines s = s.
Proof.
  unfold universal_newlines.
  induction s as [|c s IH]; intros Hs; simpl; [done|].
  apply not_elem_of_cons in Hs as [Hc Hs].
  destruct (N.eqb_spec c CR) as [->|_]; [done|]. by rewrite IH.
Qed.

(** C9, as far as the code goes: without a log, [list_obituaries]
    answers the empty list and [read_graveyard] the placeholder, which
    contains "No GRAVEYARD.md found"; with a log, [read_graveyard]
    answers its content as the text reader delivers it, CR LF and CR
    read as LF, so verbatim when the file holds no CR. *)
Theorem missing_and_present_log (fs : files) (repo_root : pystr) :
  let path := get_graveyard_path repo_root in
  (fs !! path = None →
     list_obituaries fs repo_root = []
     ∧ read_graveyard fs repo_root = NO_GRAVEYARD
     ∧ occurs_in (py "No GRAVEYARD.md found") (read_graveyard fs repo_root))
  ∧ (∀ text, fs !! path = Some text →
       read_graveyard fs repo_root = universal_newlines text
       ∧ (CR ∉ text → read_graveyard fs repo_root = text)).
Proof.
  intros path. unfold list_obituaries, read_graveyard, read_text.
  fold path. split.
  - intros ->. simpl. split_and!; [done..|]. by apply contains_spec.
  - intros text ->. simpl. split; [done|]. apply universal_newlines_id.
Qed.

Lemma missing_and_present_log_witness :
  let root := py "/repo" in
  let text := py "# notes" ++ [LF] in
  let fs : files := {[ py "/repo/GRAVEYARD.md" := text ]} in
  (list_obituaries ∅ root = []
   ∧ read_graveyard ∅ root = NO_GRAVEYARD
   ∧ occurs_in (py "No GRAVEYARD.md found") (read_graveyard ∅ root))
  ∧ read_graveyard fs root = text.
Proof.
  intros root text fs. split.
  - apply (proj1 (missing_and_present_log ∅ root)). reflexivity.
  - apply (proj2 (missing_and_present_log fs root) text); [reflexivity|].
    apply (bool_decide_eq_false_1 _). reflexivity.
Defined.

(** C9 as stated fails on a log that holds a carriage return: the text
    returned is not the content of the file. *)
Lemma read_graveyard_not_verbatim :
  let root := py "/repo" in
  let text := py "a" ++ [CR] in
  let fs : files := {[ get_graveyard_path root := text ]} in
  fs !! get_graveyard_path root = Some text
  ∧ read_graveyard fs root ≠ text.
Proof. intros root text fs. split; [reflexivity | by vm_compute]. Qed.

(** ** The entry text *)

(** C1, as the code has it: when the metadata holds no reason, the
    entry opens with the heading and the "Lived" line, and its "Cause
    of death" line carries the store's own fallback, "Unknown". *)
Theorem cause_line_without_reason (today : date) (fs : files)
    (repo_root filename obituary : pystr)
    (metadata : option (gmap string pystr)) :
  let meta := default ∅ metadata in
  let born := default (py "unknown") (meta !! "born") in
  let died := default (str_of_date today) (meta !! "died") in
  meta !! "reason" = None →
  ∃ rest,
    (append_obituary today fs repo_root filename obituary metadata).2
    = ([LF] ++ py "## " ++ filename ++ [LF])
      ++ (py "**Lived:** " ++ born ++ py " " ++ [EM_DASH] ++ py " " ++ died
          ++ py "  " ++ [LF])
      ++ (py "**Cause of death:** Unknown  " ++ [LF])
      ++ rest.
Proof.
  intros meta born died Hreason. simpl. unfold format_entry.
  fold meta. rewrite Hreason. fold born died.
  destruct (truthy _); eexists; rewrite !concat_app; simpl;
    repeat (rewrite <- app_assoc; simpl); reflexivity.
Qed.

Lemma cause_line_without_reason_witness :
  ∃ rest,
    (append_obituary (Date 2024 11 1) ∅ (py "/repo") (py "utils.py")
       (py "It was a utility module.") (Some ∅)).2
    = ([LF] ++ py "## utils.py" ++ [LF])
      ++ (py "**Lived:** unknown " ++ [EM_DASH] ++ py " 2024-11-01  " ++ [LF])
      ++ (py "**Cause of death:** Unknown  " ++ [LF])
      ++ rest.
Proof.
  exact (cause_line_without_reason (Date 2024 11 1) ∅ (py "/repo")
           (py "utils.py") (py "It was a utility module.") (Some ∅) eq_refl).
Defined.

(** C1 as stated fails: with no reason in the metadata the entry holds
    no "Deleted (cause unknown)" at all. *)
Lemma cause_line_is_not_deleted_cause_unknown :
  let metadata : option (gmap string pystr) := Some ∅ in
  default ∅ metadata !! "reason" = None
  ∧ ¬ occurs_in (py "Deleted (cause unknown)")
        (append_obituary (Date 2024 11 1) ∅ (py "/repo") (py "utils.py")
           (py "It was a utility module.") metadata).2.
Proof. split; [reflexivity | by apply not_occurs_in]. Qed.

(** ** The fallback composer *)

Lemma generate_template_obituary_shape (filename content : pystr)
    (born died reason : option pystr) :
  ∃ rest,
    generate_template_obituary filename content born died reason
    = filename ++ py " " ++ rest.
Proof. unfold generate_template_obituary. eexists. reflexivity. Qed.

Lemma generate_template_obituary_nonempty (filename content : pystr)
    (born died reason : option pystr) :
  generate_template_obituary filename content born died reason ≠ [].
Proof.
  destruct (generate_template_obituary_shape filename content born died reason)
    as [rest ->].
  by destruct filename.
Qed.

(** C7: the fallback composer is a function of its five arguments alone
    (equal arguments, equal text), its text is never empty, and the
    file name occurs in it as given. *)
Theorem generate_template_obituary_pure (filename filename' content content' : pystr)
    (born born' died died' reason reason' : option pystr) :
  filename = filename' → content = content' →
  born = born' → died = died' → reason = reason' →
  generate_template_obituary filename content born died reason
  = generate_template_obituary filename' content' born' died' reason'
  ∧ generate_template_obituary filename content born died reason ≠ []
  ∧ occurs_in filename
      (generate_template_obituary filename content born died reason).
Proof.
  intros <- <- <- <- <-. split_and!; [done | |].
  - apply generate_template_obituary_nonempty.
  - destruct (generate_template_obituary_shape filename content born died reason)
      as [rest ->].
    apply occurs_in_prefix.
Qed.

Lemma generate_template_obituary_pure_witness :
  let filename := py "legacy_oauth.py" in
  let content := py "import os" ++ [LF] ++ py "def get_token(self):" ++ [LF] in
  generate_template_obituary filename content None None None
  = generate_template_obituary filename content None None None
  ∧ generate_template_obituary filename content None None None ≠ []
  ∧ occurs_in filename
      (generate_template_obituary filename content None None None).
Proof.
  intros filename content.
  exact (generate_template_obituary_pure filename filename content content
           None None None None None None
           eq_refl eq_refl eq_refl eq_refl eq_refl).
Defined.

(** C10: with a birth date and no death date the fallback composer
    writes no lifetime clause; the birth date leaves no trace. *)
Theorem generate_template_obituary_born_only (filename content : pystr)
    (reason : option pystr) (b : pystr) :
  generate_template_obituary filename content (Some b) None reason
  = generate_template_obituary filename content None None reason.
Proof.
  unfold generate_template_obituary. simpl otruthy.
  by rewrite andb_false_r.
Qed.

(** ** The composer and the text service *)

(** C3, as far as the code goes. [generate_obituary] answers a string
    on every input. Without a usable API key (unset or empty) it is the
    fallback obituary; with a key and an attempt that raises, it is the
    fallback obituary followed by the note that the AI obituary was
    unavailable; both are non-empty. With a key and a reply, it is the
    reply's text stripped, whatever that text is. *)
Theorem generate_obituary_cases (environ : gmap string (list N))
    (service : text_service) (filename content : pystr)
    (reason born died : option pystr) :
  let api_key := environ !! "ANTHROPIC_API_KEY" in
  let prompt := ai_prompt filename content reason born died in
  let fallback := generate_template_obituary filename content born died reason in
  let result :=
    generate_obituary environ service filename content reason born died in
  (otruthy api_key = false → result = fallback ∧ result ≠ [])
  ∧ (∀ key e,
       api_key = Some key → truthy key = true →
       service key prompt = Raised e →
       result = fallback ++ [LF; LF] ++ py "*(AI obituary unavailable: "
                ++ e ++ py ")*"
       ∧ result ≠ [])
  ∧ (∀ key text,
       api_key = Some key → truthy key = true →
       service key prompt = Returned text →
       result = strip text).
Proof.
  intros api_key prompt fallback result.
  unfold result, generate_obituary. fold api_key. split_and!.
  - intros ->. split; [done|]. apply generate_template_obituary_nonempty.
  - intros key e Hkey Htruthy Hraised. rewrite Hkey. simpl. rewrite Htruthy.
    unfold _generate_ai_obituary. fold prompt. rewrite Hraised. split; [done|].
    intros Hnil. apply app_eq_nil in Hnil as [Hnil _].
    by apply generate_template_obituary_nonempty in Hnil.
  - intros key text Hkey Htruthy Hreturned. rewrite Hkey. simpl.
    rewrite Htruthy. unfold _generate_ai_obituary. fold prompt.
    by rewrite Hreturned.
Qed.

Lemma generate_obituary_cases_witness :
  let filename := py "test.py" in
  let content := py "print(1)" ++ [LF] in
  let fallback := generate_template_obituary filename content None None None in
  let configured : gmap string (list N) := {[ "ANTHROPIC_API_KEY" := py "sk-1" ]} in
  let failing : text_service := λ _ _, Raised (py "Connection error.") in
  let replying : text_service := λ _ _, Returned (py " It served well. ") in
  (generate_obituary ∅ failing filename content None None None = fallback
   ∧ generate_obituary ∅ failing filename content None None None ≠ [])
  ∧ (generate_obituary configured failing filename content None None None
     = fallback ++ [LF; LF] ++ py "*(AI obituary unavailable: "
       ++ py "Connection error." ++ py ")*"
     ∧ generate_obituary configured failing filename content None None None ≠ [])
  ∧ generate_obituary configured replying filename content None None None
    = strip (py " It served well. ").
Proof.
  intros filename content fallback configured failing replying.
  split; [|split].
  - exact (proj1 (generate_obituary_cases ∅ failing filename content
                    None None None) eq_refl).
  - exact (proj1 (proj2 (generate_obituary_cases configured failing filename
                           content None None None))
             (py "sk-1") (py "Connection error.") eq_refl eq_refl eq_refl).
  - exact (proj2 (proj2 (generate_obituary_cases configured replying filename
                           content None None None))
             (py "sk-1") (py " It served well. ") eq_refl eq_refl eq_refl).
Defined.

(** C3 as stated fails: with a key and a reply whose text is blank, the
    string returned is empty. *)
Lemma generate_obituary_empty_reply :
  let configured : gmap string (list N) := {[ "ANTHROPIC_API_KEY" := py "sk-1" ]} in
  let blank : text_service := λ _ _, Returned (py "  ") in
  generate_obituary configured blank (py "test.py") (py "print(1)")
    None None None = [].
Proof. reflexivity. Qed.

Lemma strip_prefix_Some (p s s' : pystr) :
  strip_prefix p s = Some s' ↔ s = p ++ s'.
Proof.
  revert s. induction p as [|a p IH]; intros s; simpl.
  - split; [by intros [= ->] | by intros ->].
  - destruct s as [|b s]; [done|].
    destruct (N.eqb_spec a b) as [->|Hne].
    + rewrite IH. split; [by intros -> | by intros [= ->]].
    + split; [done | intros [= ? ?]; done].
Qed.

Lemma strip_prefix_startswith (p s : pystr) :
  startswith s p = bool_decide (is_Some (strip_prefix p s)).
Proof.
  revert s. induction p as [|a p IH]; intros s; simpl; [done|].
  destruct s as [|b s]; simpl; [done|].
  destruct (a =? b)%N; simpl; [apply IH | done].
Qed.

Lemma prev_after_app (prev : option char) (w1 w2 : pystr) :
  prev_after (prev_after prev w1) w2 = prev_after prev (w1 ++ w2).
Proof.
  unfold prev_after. rewrite last_app.
  destruct (last w2); [done|]. by destruct (last w1).
Qed.

(** ** The matcher answers with what the pattern accepts *)

Section Soundness.
Variable ml : bool.
Context {R : Type}.

Lemma star_loop_sound (r : regex) body :
  sound_body (R:=R) ml r body →
  ∀ fuel, sound_body ml (Star r) (λ prev s g k, star_loop body k fuel prev s g).
Proof.
  intros Hbody fuel. unfold sound_body.
  induction fuel as [|fuel IH]; intros prev s g k res; simpl.
  - intros Hk. exists [], s, g.
    split_and!; [done | apply derives_star_nil | done].
  - destruct (body prev s g _) as [x|] eqn:Hb.
    + intros [= ->]. apply Hbody in Hb as (w1 & s1 & g1 & -> & Hd1 & Hk1).
      destruct (_ <? _); [|done].
      apply IH in Hk1 as (w2 & s2 & g2 & -> & Hd2 & Hk2).
      exists (w1 ++ w2), s2, g2. split_and!.
      * by rewrite app_assoc.
      * by econstructor.
      * by rewrite <- prev_after_app.
    + intros Hk. exists [], s, g.
      split_and!; [done | apply derives_star_nil | done].
Qed.

Lemma rmatch_sound (r : regex) : sound_body (R:=R) ml r (rmatch ml r).
Proof.
  induction r as [l|p| |r1 IH1 r2 IH2|r1 IH1|r1 IH1|r1 IH1];
    intros prev s g k res; simpl.
  - destruct (strip_prefix l s) as [s'|] eqn:Hl; [|done].
    apply strip_prefix_Some in Hl as ->. intros Hk.
    exists l, s', g. split_and!; [done | constructor | done].
  - destruct s as [|c s']; [done|]. destruct (p c) eqn:Hp; [|done].
    intros Hk. exists [c], s', g. split_and!; [done | by constructor | done].
  - destruct (at_bol ml prev) eqn:Hb; [|done]. intros Hk.
    exists [], s, g. split_and!; [done | by constructor | done].
  - intros H. apply IH1 in H as (w1 & s1 & g1 & -> & Hd1 & H).
    apply IH2 in H as (w2 & s2 & g2 & -> & Hd2 & H).
    exists (w1 ++ w2), s2, g2. split_and!.
    + by rewrite app_assoc.
    + by econstructor.
    + by rewrite <- prev_after_app.
  - destruct (rmatch ml r1 prev s g k) as [x|] eqn:H1.
    + intros [= ->]. apply IH1 in H1 as (w & s' & g' & -> & Hd & Hk).
      exists w, s', g'. split_and!; [done | by apply derives_opt_some | done].
    + intros Hk. exists [], s, g.
      split_and!; [done | apply derives_opt_none | done].
  - apply (star_loop_sound r1 _ IH1 (length s)).
  - intros H. apply IH1 in H as (w & s' & g' & -> & Hd & Hk).
    exists w, s', (Some w). split_and!; [done | by econstructor |].
    rewrite length_app, Nat.add_sub, take_app_length in Hk. done.
Qed.
End Soundness.

Lemma try_at_sound (ml : bool) (r : regex) (prev : option char) (s : pystr)
    (g : option pystr) (n : nat) :
  try_at ml r prev s = Some (g, n) →
  ∃ w s', s = w ++ s' ∧ n = length w ∧ derives ml r prev w None g.
Proof.
  intros H. apply rmatch_sound in H as (w & s' & g' & -> & Hd & [= <- <-]).
  exists w, s'. split_and!; [done | | done].
  rewrite length_app. lia.
Qed.

Lemma occurs_in_app_r (p a b : pystr) : occurs_in p b → occurs_in p (a ++ b).
Proof.
  intros (pre & post & ->). exists (a ++ pre), post. by rewrite app_assoc.
Qed.

Lemma occurs_in_app_l (p a b : pystr) : occurs_in p a → occurs_in p (a ++ b).
Proof.
  intros (pre & post & ->). exists pre, (post ++ b). by rewrite <- !app_assoc.
Qed.

Lemma occurs_in_refl (p : pystr) : occurs_in p p.
Proof. exists [], []. by rewrite app_nil_r. Qed.

(** A capture made while reading [w] is a piece of [w]. *)
Lemma derives_capture (ml : bool) (r : regex) (prev : option char)
    (w : pystr) (g g' : option pystr) :
  derives ml r prev w g g' → g' = g ∨ ∃ x, g' = Some x ∧ occurs_in x w.
Proof.
  induction 1 as [| | |r1 r2 prev w1 w2 g g1 g2 _ IH1 _ IH2| | |
                  |r prev w1 w2 g g1 g2 _ IH1 _ IH2|]; eauto.
  - destruct IH2 as [->|(x & -> & Hx)].
    + destruct IH1 as [->|(x & -> & Hx)]; [by left|].
      right. exists x. split; [done|]. by apply occurs_in_app_l.
    + right. exists x. split; [done|]. by apply occurs_in_app_r.
  - destruct IH2 as [->|(x & -> & Hx)].
    + destruct IH1 as [->|(x & -> & Hx)]; [by left|].
      right. exists x. split; [done|]. by apply occurs_in_app_l.
    + right. exists x. split; [done|]. by apply occurs_in_app_r.
  - right. eexists. split; [done|]. apply occurs_in_refl.
Qed.

(** [r*] over a character class reads characters of the class and
    captures nothing. *)
Lemma derives_star_cls (ml : bool) (p : char → bool) (prev : option char)
    (w : pystr) (g g' : option pystr) :
  derives ml (Star (Cls p)) prev w g g' →
  g' = g ∧ Forall (λ c, p c = true) w.
Proof.
  intros H. remember (Star (Cls p)) as r eqn:Hr.
  induction H as [| | | | | | |r prev w1 w2 g g1 g2 H1 _ H2 IH2|];
    try discriminate Hr.
  - done.
  - injection Hr as ->. inversion H1; subst.
    destruct (IH2 eq_refl) as [-> Hw2]. split; [done|].
    by apply Forall_cons.
Qed.

(** ** Symbol extraction *)

Lemma appear_in_order_app (l : list pystr) (pre text : pystr) :
  appear_in_order l text → appear_in_order l (pre ++ text).
Proof.
  destruct 1 as [|x l pre' post H]; [constructor|].
  rewrite app_assoc. by constructor.
Qed.

Ltac inv_derives :=
  repeat match goal with
    | H : derives _ (_ +> _) _ _ _ _ |- _ => inversion H; subst; clear H
    | H : derives _ (Plus _) _ _ _ _ |- _ => inversion H; subst; clear H
    | H : derives _ (Lit _) _ _ _ _ |- _ => inversion H; subst; clear H
    | H : derives _ (Cls _) _ _ _ _ |- _ => inversion H; subst; clear H
    | H : derives _ (Grp _) _ _ _ _ |- _ => inversion H; subst; clear H
    | H : derives _ (Opt _) _ _ _ _ |- _ => inversion H; subst; clear H
    | H : derives _ Bol _ _ _ _ |- _ => inversion H; subst; clear H
    | H : derives _ (Star (Cls _)) _ _ _ _ |- _ =>
        apply derives_star_cls in H as [? ?]; subst
    end.

Lemma derives_IDENT (ml : bool) (prev : option char) (w : pystr)
    (g g' : option pystr) :
  derives ml IDENT prev w g g' → is_identifier w.
Proof.
  unfold IDENT. intros H. inv_derives.
  eexists _, _. split_and!; [done | done | done].
Qed.

(** What a match of the function pattern looks like: group 1 is an
    identifier and the matched text holds the keyword. *)
Lemma derives_FUNCTION_RE (ml : bool) (prev : option char) (w : pystr)
    (g g' : option pystr) :
  derives ml FUNCTION_RE prev w g g' →
  ∃ x, g' = Some x ∧ is_identifier x ∧ occurs_in (py "def") w.
Proof.
  unfold FUNCTION_RE. intros H.
  repeat match goal with
    | H : derives _ (_ +> _) _ _ _ _ |- _ => inversion H; subst; clear H
    | H : derives _ (Grp _) _ _ _ _ |- _ => inversion H; subst; clear H
    | H : derives _ IDENT _ _ _ _ |- _ => apply derives_IDENT in H
    end.
  inv_derives.
  all: eexists; split_and!; [done | done |].
  all: repeat first [apply occurs_in_prefix | apply occurs_in_app_r].
Qed.

Lemma derives_CLASS_RE (ml : bool) (prev : option char) (w : pystr)
    (g g' : option pystr) :
  derives ml CLASS_RE prev w g g' →
  ∃ x, g' = Some x ∧ is_identifier x ∧ occurs_in (py "class") w.
Proof.
  unfold CLASS_RE. intros H.
  repeat match goal with
    | H : derives _ (_ +> _) _ _ _ _ |- _ => inversion H; subst; clear H
    | H : derives _ (Grp _) _ _ _ _ |- _ => inversion H; subst; clear H
    | H : derives _ IDENT _ _ _ _ |- _ => apply derives_IDENT in H
    end.
  inv_derives.
  all: eexists; split_and!; [done | done |].
  all: repeat first [apply occurs_in_prefix | apply occurs_in_app_r].
Qed.

Section Findall.
Variables (ml : bool) (r : regex).

(** What is known of every match of [r]: its group satisfies [Q]. *)
Variable Q : pystr → Prop.
Hypothesis group_Q :
  ∀ prev w g, derives ml r prev w None g → Q (group_text g).

Lemma try_at_group (prev : option char) (s : pystr) (g : option pystr)
    (n : nat) :
  try_at ml r prev s = Some (g, n) →
  Q (group_text g) ∧ n ≤ length s ∧ occurs_in (group_text g) (take n s).
Proof.
  intros H. apply try_at_sound in H as (w & s' & -> & -> & Hd).
  split_and!.
  - by eapply group_Q.
  - rewrite length_app. lia.
  - rewrite take_app_length.
    destruct (derives_capture _ _ _ _ _ _ Hd) as [->|(x & -> & Hx)]; [|done].
    by exists [], w.
Qed.

(** [re.findall] lists groups that satisfy [Q], in the order in which
    they occur in the text. *)
Lemma findall_from_ordered (prev : option char) (s : pystr) (skip : nat) :
  Forall Q (findall_from ml r prev s skip)
  ∧ appear_in_order (findall_from ml r prev s skip) (drop skip s).
Proof.
  revert prev skip. induction s as [|c s IH]; intros prev skip; simpl.
  - destruct skip as [|skip]; [|split; constructor].
    destruct (try_at ml r prev []) as [[g n]|] eqn:Ht; [|split; constructor].
    apply try_at_group in Ht as (HQ & Hn & (pre & post & Ho)). split.
    + by repeat constructor.
    + rewrite take_nil in Ho. symmetry in Ho.
      apply app_eq_nil in Ho as [-> Ho]. apply app_eq_nil in Ho as [Ho ->].
      rewrite Ho. apply (appear_cons [] [] [] []). constructor.
  - destruct skip as [|skip]; [|apply IH].
    destruct (try_at ml r prev (c :: s)) as [[g n]|] eqn:Ht.
    + apply try_at_group in Ht as (HQ & Hn & (pre & post & Ho)).
      destruct (IH (Some c) (pred n)) as [IHQ IHo]. split.
      * by constructor.
      * rewrite <- (take_drop n (c :: s)), Ho, <- !app_assoc.
        constructor. apply appear_in_order_app.
        destruct n as [|n]; simpl in *; [|done].
        by apply (appear_in_order_app _ [c]).
    + destruct (IH (Some c) 0) as [IHQ IHo]. split; [done|].
      by apply (appear_in_order_app _ [c]).
Qed.

(** Without a match anywhere, [re.findall] lists nothing; [pre] is the
    text already passed. *)
Lemma findall_from_no_match (pre s : pystr) (skip : nat) :
  (∀ s1 s2, pre ++ s = s1 ++ s2 → try_at ml r (last s1) s2 = None) →
  findall_from ml r (last pre) s skip = [].
Proof.
  revert pre skip. induction s as [|c s IH]; intros pre skip Hno; simpl.
  - destruct skip; [|done]. by rewrite (Hno pre []).
  - assert (findall_from ml r (Some c) s = findall_from ml r (last (pre ++ [c])) s)
      as -> by (by rewrite last_snoc).
    assert (∀ skip', findall_from ml r (last (pre ++ [c])) s skip' = [])
      as Hrest.
    { intros skip'. apply IH. intros s1 s2 Hs. apply Hno.
      by rewrite <- Hs, <- app_assoc. }
    destruct skip; [|done]. by rewrite (Hno pre (c :: s)).
Qed.
End Findall.

Lemma findall_not_declaration_shaped (r : regex) (content : pystr) :
  ¬ declaration_shaped r content → re_findall true r content = [].
Proof.
  intros Hno. apply (findall_from_no_match true r []). intros s1 s2 Hs.
  destruct (try_at true r (last s1) s2) as [[g n]|] eqn:Ht; [|done].
  apply try_at_sound in Ht as (w & s' & -> & _ & Hd).
  destruct Hno. by exists s1, w, s', g.
Qed.

(** A text without the keyword holds no declaration of that shape. *)
Lemma no_def_not_declaration_shaped (content : pystr) :
  ¬ occurs_in (py "def") content → ¬ declaration_shaped FUNCTION_RE content.
Proof.
  intros Hno (pre & w & post & g & -> & Hd).
  apply derives_FUNCTION_RE in Hd as (_ & _ & _ & Ho).
  apply Hno. by apply occurs_in_app_r, occurs_in_app_l.
Qed.

Lemma no_class_not_declaration_shaped (content : pystr) :
  ¬ occurs_in (py "class") content → ¬ declaration_shaped CLASS_RE content.
Proof.
  intros Hno (pre & w & post & g & -> & Hd).
  apply derives_CLASS_RE in Hd as (_ & _ & _ & Ho).
  apply Hno. by apply occurs_in_app_r, occurs_in_app_l.
Qed.

(** ** Reading the log back *)

Lemma translate_newlines_id (s : pystr) :
  CR ∉ s → translate_newlines false s = s.
Proof. apply universal_newlines_id. Qed.

(** Text written after a log that does not end in CR is read as
    written, when it holds no CR itself. *)
Lemma translate_newlines_app (after_cr : bool) (prior text : pystr) :
  last prior ≠ Some CR → (prior = [] → after_cr = false) → CR ∉ text →
  translate_newlines after_cr (prior ++ text)
  = translate_newlines after_cr prior ++ text.
Proof.
  intros Hlast Hnil Htext. revert after_cr Hlast Hnil.
  induction prior as [|c prior IH]; intros after_cr Hlast Hnil; simpl.
  - rewrite Hnil by done. by apply translate_newlines_id.
  - assert (last prior ≠ Some CR) as Hlast'.
    { destruct prior; [done|]. by rewrite last_cons_cons in Hlast. }
    destruct (N.eqb_spec c CR) as [->|Hc].
    + simpl. f_equal. apply IH; [done|]. by intros ->.
    + destruct (after_cr && _); simpl; [|f_equal]; by apply IH.
Qed.

Lemma try_at_HEADING_RE (prev : option char) (s : pystr) :
  try_at false HEADING_RE prev s
  = if startswith s HEADING then Some (None, 4) else None.
Proof.
  rewrite strip_prefix_startswith. unfold try_at, HEADING_RE. cbn [rmatch].
  fold HEADING. destruct (strip_prefix HEADING s) as [s'|] eqn:Hs; [|done].
  apply strip_prefix_Some in Hs as ->.
  by rewrite length_app, Nat.add_sub.
Qed.

(** A heading cannot begin inside earlier text and end inside a heading
    that follows it. *)
Lemma startswith_heading_app (c : char) (t rest : pystr) :
  startswith ((c :: t) ++ HEADING ++ rest) HEADING
  = startswith (c :: t) HEADING.
Proof.
  by destruct t as [|c1 [|c2 [|c3 t]]]; simpl.
Qed.

Lemma split_from_nonempty (ml : bool) (r : regex) (prev : option char)
    (s : pystr) (skip : nat) (cur : pystr) :
  split_from ml r prev s skip cur ≠ [].
Proof.
  revert prev skip cur. induction s as [|c s IH]; intros prev skip cur;
    cbn [split_from].
  - destruct skip; [|done]. by destruct (try_at _ _ _ _).
  - destruct skip; [|apply IH].
    destruct (try_at _ _ _ _) as [[g [|n]]|]; [done | done | apply IH].
Qed.

(** Text without a heading is one piece. *)
Lemma split_from_no_heading (prev : option char) (s cur : pystr) :
  ¬ occurs_in HEADING s →
  split_from false HEADING_RE prev s 0 cur = [cur ++ s].
Proof.
  revert prev cur. induction s as [|c s IH]; intros prev cur Hno;
    cbn [split_from]; rewrite try_at_HEADING_RE.
  - simpl. by rewrite app_nil_r.
  - destruct (startswith (c :: s) HEADING) eqn:Hs.
    + destruct Hno. apply startswith_spec in Hs as [post ->].
      apply occurs_in_prefix.
    + rewrite IH; [by rewrite <- app_assoc|].
      intros Ho. apply Hno. by apply (occurs_in_app_r _ [c]).
Qed.

(** A record section appended to a text adds one piece to its split,
    and leaves the earlier pieces as they were. *)
Lemma split_from_heading_app (prev : option char) (text rest : pystr)
    (skip : nat) (cur : pystr) :
  skip ≤ length text → ¬ occurs_in HEADING rest →
  split_from false HEADING_RE prev (text ++ HEADING ++ rest) skip cur
  = split_from false HEADING_RE prev text skip cur ++ [rest].
Proof.
  intros Hskip Hno. revert prev skip cur Hskip.
  induction text as [|c text IH]; intros prev skip cur Hskip.
  - destruct skip; [|simpl in Hskip; lia].
    cbn [app split_from HEADING]. rewrite !try_at_HEADING_RE.
    cbn [startswith HEADING app]. simpl.
    by rewrite split_from_no_heading.
  - rewrite <- app_comm_cons. cbn [split_from].
    destruct skip as [|skip].
    + rewrite !try_at_HEADING_RE, app_comm_cons, startswith_heading_app.
      destruct (startswith (c :: text) HEADING) eqn:Hs.
      * simpl. f_equal. apply IH.
        apply startswith_spec in Hs as [post Hs]. simpl in Hs.
        injection Hs as -> ->. simpl. lia.
      * apply IH. lia.
    + apply IH. simpl in Hskip. lia.
Qed.

(** ** Characters the parts of an entry cannot hold *)

Lemma string_of_uint_digits (d : Decimal.uint) :
  Forall (λ c, isdigit c = true) (str_codes (NilEmpty.string_of_uint d)).
Proof.
  induction d; unfold str_codes;
    cbn [NilEmpty.string_of_uint String.list_ascii_of_string fmap list_fmap];
    constructor; first [exact IHd | reflexivity].
Qed.

Lemma str_of_nat_digits (n : nat) :
  Forall (λ c, isdigit c = true) (str_of_nat n).
Proof.
  unfold str_of_nat, NilZero.string_of_uint.
  generalize (string_of_uint_digits (Nat.to_uint n)).
  destruct (Nat.to_uint n); [intros _|done..].
  change (Forall (λ c, isdigit c = true) [48%N]). by repeat constructor.
Qed.

Lemma zero_pad_digits (w n : nat) :
  Forall (λ c, isdigit c = true) (zero_pad w n).
Proof.
  unfold zero_pad. apply Forall_app. split; [|apply str_of_nat_digits].
  by apply Forall_replicate.
Qed.

Lemma str_of_date_chars (d : date) (c : char) :
  isdigit c = false → c ≠ 45%N → c ∉ str_of_date d.
Proof.
  intros Hc Hdash Hin. unfold str_of_date in Hin.
  assert (∀ w n, c ∉ zero_pad w n) as Hpad.
  { intros w n Hin'. pose proof (zero_pad_digits w n) as Hd.
    rewrite Forall_forall in Hd. apply Hd in Hin'. congruence. }
  rewrite !elem_of_app, !list_elem_of_singleton in Hin.
  destruct Hin as [Hin|[Hin|[Hin|[Hin|Hin]]]]; try done; by eapply Hpad.
Qed.

Lemma no_linebreak_chars (l : pystr) :
  Forall (λ c, islinebreak c = false) l → (LF ∉ l) ∧ (CR ∉ l).
Proof.
  intros Hl. rewrite Forall_forall in Hl.
  split; intros Hin; apply Hl in Hin; done.
Qed.

(** The lines [str.splitlines] answers hold no line boundary. *)
Lemma splitlines_from_no_linebreak (cur : pystr) (after_cr : bool) (s : pystr) :
  Forall (λ c, islinebreak c = false) cur →
  Forall (Forall (λ c, islinebreak c = false)) (splitlines_from cur after_cr s).
Proof.
  revert cur after_cr. induction s as [|c s IH]; intros cur after_cr Hcur; simpl.
  - destruct cur; [constructor|]. constructor; [done | constructor].
  - destruct (after_cr && _); [by apply IH|].
    destruct (islinebreak c) eqn:Hc.
    + constructor; [done|]. by apply IH.
    + apply IH. apply Forall_app. by repeat constructor.
Qed.

Lemma splitlines_no_linebreak (s : pystr) :
  Forall (Forall (λ c, islinebreak c = false)) (splitlines s).
Proof. by apply splitlines_from_no_linebreak. Qed.

Lemma blockquote_quoted (line : pystr) : blockquote line = quoted line ++ [LF].
Proof. unfold blockquote, quoted. by destruct (truthy _). Qed.

Lemma quoted_head (line : pystr) : ∃ t, quoted line = 62%N :: t.
Proof. unfold quoted. destruct (truthy _); eexists; reflexivity. Qed.

Lemma quoted_no_linebreak (line : pystr) :
  Forall (λ c, islinebreak c = false) line →
  Forall (λ c, islinebreak c = false) (quoted line).
Proof.
  intros Hl. unfold quoted. destruct (truthy _); by repeat constructor.
Qed.

(** ** The shape of an entry *)

Lemma unlines_app (l1 l2 : list pystr) :
  unlines (l1 ++ l2) = unlines l1 ++ unlines l2.
Proof. unfold unlines. by rewrite fmap_app, concat_app. Qed.

Lemma unlines_quoted (ls : list pystr) :
  unlines (quoted <$> ls) = concat (blockquote <$> ls).
Proof.
  unfold unlines. rewrite <- list_fmap_compose. f_equal.
  apply list_fmap_ext. intros _ l _. simpl. by rewrite blockquote_quoted.
Qed.

(** An entry is its heading, the file name, and its lines. *)
Lemma format_entry_unlines (today : date) (filename obituary : pystr)
    (metadata : option (gmap string pystr)) :
  format_entry today filename obituary metadata
  = HEADING ++ filename ++ [LF]
    ++ unlines (entry_lines_of today obituary metadata).
Proof.
  unfold format_entry, entry_lines_of.
  rewrite !unlines_app, unlines_quoted.
  destruct (truthy _); rewrite !concat_app; unfold unlines, HEADING; simpl;
    repeat (rewrite <- app_assoc; simpl); reflexivity.
Qed.

Lemma not_elem_of_take (c : char) (n : nat) (s : pystr) :
  c ∉ s → c ∉ take n s.
Proof. intros Hs Hin. apply Hs. by eapply subseteq_take. Qed.

Ltac solve_not_elem :=
  rewrite ?not_elem_of_app, ?not_elem_of_cons; split_and?;
  try done; try apply not_elem_of_nil; try (by apply not_elem_of_take).

(** The lines of an entry hold no newline character, given that the
    metadata holds none. *)
Lemma entry_lines_newline_free (today : date) (obituary : pystr)
    (metadata : option (gmap string pystr)) :
  metadata_newline_free metadata →
  Forall newline_free (entry_lines_of today obituary metadata).
Proof.
  intros Hmeta. unfold entry_lines_of.
  set (meta := default ∅ metadata).
  assert (∀ key d, newline_free d → newline_free (default d (meta !! key)))
    as Hdefault.
  { intros key d Hd. destruct (meta !! key) eqn:Hkey; [|done].
    by eapply Hmeta. }
  assert (newline_free (str_of_date today)) as Htoday.
  { split; by apply str_of_date_chars. }
  destruct (Hdefault "born" (py "unknown")) as [? ?].
  { split; solve_not_elem. }
  destruct (Hdefault "died" (str_of_date today) Htoday) as [? ?].
  destruct (Hdefault "reason" (py "Unknown")) as [? ?].
  { split; solve_not_elem. }
  destruct (Hdefault "last_words" []) as [? ?].
  { split; solve_not_elem. }
  repeat apply Forall_app_2.
  - repeat constructor; solve_not_elem.
  - destruct (truthy _); repeat constructor; solve_not_elem.
  - repeat constructor; solve_not_elem.
  - apply Forall_fmap, Forall_forall. intros l Hl. simpl.
    pose proof (splitlines_no_linebreak obituary) as Hlines.
    rewrite Forall_forall in Hlines.
    by apply no_linebreak_chars, quoted_no_linebreak, Hlines.
  - repeat constructor; solve_not_elem.
Qed.

Lemma entry_lines_head (today : date) (obituary : pystr)
    (metadata : option (gmap string pystr)) :
  Forall (λ l, head l ≠ Some 35%N) (entry_lines_of today obituary metadata).
Proof.
  unfold entry_lines_of. repeat apply Forall_app_2.
  - by repeat constructor.
  - destruct (truthy _); by repeat constructor.
  - by repeat constructor.
  - apply Forall_fmap, Forall_forall. intros l _. simpl.
    by destruct (quoted_head l) as [t ->].
  - by repeat constructor.
Qed.

(** ** Where a heading can occur *)

Lemma occurs_in_cons (p : pystr) (c : char) (s : pystr) :
  occurs_in p (c :: s) → startswith (c :: s) p = true ∨ occurs_in p s.
Proof.
  intros ([|c' pre] & post & Hs); simpl in Hs.
  - left. apply startswith_spec. eauto.
  - right. injection Hs as -> ->. by exists pre, post.
Qed.

Lemma heading_free_app (a b : pystr) :
  LF ∉ a → ¬ occurs_in HEADING b → ¬ occurs_in HEADING (a ++ b).
Proof.
  intros Ha Hb. induction a as [|c a IH]; [done|].
  apply not_elem_of_cons in Ha as [Hc Ha]. simpl. intros Ho.
  apply occurs_in_cons in Ho as [Hs|Ho]; [|by apply IH].
  unfold HEADING in Hs. cbn [app startswith] in Hs.
  apply andb_true_iff in Hs as [Hs _].
  apply N.eqb_eq in Hs. done.
Qed.

Lemma heading_free_lf (b : pystr) :
  startswith b (py "## ") = false → ¬ occurs_in HEADING b →
  ¬ occurs_in HEADING (LF :: b).
Proof.
  intros Hs Hb Ho. apply occurs_in_cons in Ho as [Ho|Ho]; [|done].
  simpl in Ho. simpl in Hs. congruence.
Qed.

Lemma startswith_line (l rest : pystr) :
  head l ≠ Some 35%N → startswith (l ++ LF :: rest) (py "## ") = false.
Proof.
  intros Hl. destruct l as [|c l]; [done|]. cbn [app startswith].
  destruct (N.eqb_spec 35 c) as [<-|_]; done.
Qed.

(** Lines that hold no LF and do not begin with a hash hold no heading,
    also after a text without LF. *)
Lemma unlines_heading_free (a : pystr) (ls : list pystr) :
  LF ∉ a → Forall (λ l, LF ∉ l) ls → Forall (λ l, head l ≠ Some 35%N) ls →
  ¬ occurs_in HEADING (a ++ [LF] ++ unlines ls).
Proof.
  intros Ha Hlf Hhead. revert a Ha.
  induction ls as [|l ls IH]; intros a Ha.
  - apply heading_free_app; [done|]. by apply not_occurs_in.
  - apply Forall_cons in Hlf as [Hl Hlf].
    apply Forall_cons in Hhead as [Hh Hhead].
    apply heading_free_app; [done|]. unfold unlines. simpl.
    rewrite <- app_assoc. apply heading_free_lf.
    + by apply startswith_line.
    + by apply IH.
Qed.

Lemma unlines_not_elem (c : char) (ls : list pystr) :
  c ≠ LF → Forall (λ l, c ∉ l) ls → c ∉ unlines ls.
Proof.
  intros Hc Hls. unfold unlines.
  induction Hls as [|l ls Hl _ IH]; simpl; [apply not_elem_of_nil|].
  rewrite <- app_assoc. solve_not_elem.
Qed.

(** ** Lines read back *)

Lemma splitlines_from_line (cur a t : pystr) :
  Forall (λ c, islinebreak c = false) a →
  splitlines_from cur false (a ++ LF :: t)
  = (cur ++ a) :: splitlines_from [] false t.
Proof.
  revert cur. induction a as [|c a IH]; intros cur Ha; simpl.
  - by rewrite app_nil_r.
  - apply Forall_cons in Ha as [Hc Ha]. rewrite Hc, IH by done.
    by rewrite <- app_assoc.
Qed.

Lemma splitlines_from_unlines (ls : list pystr) (t : pystr) :
  Forall (Forall (λ c, islinebreak c = false)) ls →
  splitlines_from [] false (unlines ls ++ t)
  = ls ++ splitlines_from [] false t.
Proof.
  intros Hls. unfold unlines.
  induction Hls as [|l ls Hl _ IH]; [done|].
  cbn [fmap list_fmap concat]. rewrite <- !app_assoc. cbn [app].
  rewrite splitlines_from_line by done. fold (list_fmap _ _ (λ l, l ++ [LF])).
  by rewrite IH.
Qed.

(** The first line of a text, when the text before its first LF holds
    no CR: some line comes first, and what follows the LF is split on
    its own. *)
Lemma splitlines_from_first (cur a t : pystr) :
  CR ∉ a →
  ∃ first more,
    splitlines_from cur false (a ++ LF :: t)
    = first :: more ++ splitlines_from [] false t.
Proof.
  revert cur. induction a as [|c a IH]; intros cur Ha; simpl.
  - by exists cur, [].
  - apply not_elem_of_cons in Ha as [Hc Ha].
    destruct (islinebreak c).
    + destruct (N.eqb_spec c CR) as [->|_]; [done|].
      destruct (IH [] Ha) as (first & more & ->).
      by exists cur, (first :: more).
    + apply IH, Ha.
Qed.

(** ** Appending, then listing *)

Lemma entry_section_heading_free (today : date) (filename obituary : pystr)
    (metadata : option (gmap string pystr)) :
  newline_free filename → metadata_newline_free metadata →
  ¬ occurs_in HEADING (entry_section today filename obituary metadata).
Proof.
  intros [Hlf _] Hmeta. apply unlines_heading_free; [done | |].
  - eapply Forall_impl; [by apply entry_lines_newline_free|].
    by intros l [? ?].
  - apply entry_lines_head.
Qed.

Lemma format_entry_no_CR (today : date) (filename obituary : pystr)
    (metadata : option (gmap string pystr)) :
  newline_free filename → metadata_newline_free metadata →
  CR ∉ format_entry today filename obituary metadata.
Proof.
  intros [_ Hcr] Hmeta. rewrite format_entry_unlines.
  unfold HEADING. solve_not_elem. apply unlines_not_elem; [done|].
  eapply Forall_impl; [by apply entry_lines_newline_free|].
  by intros l [? ?].
Qed.

(** Listing after an append: the records listed before, then what the
    new section parses to. The log must not have ended in CR, which
    the reader would merge with the LF that opens the entry. *)
Lemma list_obituaries_append (today : date) (fs : files)
    (repo_root filename obituary : pystr)
    (metadata : option (gmap string pystr)) :
  newline_free filename → metadata_newline_free metadata →
  (∀ text, fs !! get_graveyard_path repo_root = Some text →
     last text ≠ Some CR) →
  list_obituaries
    (append_obituary today fs repo_root filename obituary metadata).1
    repo_root
  = list_obituaries fs repo_root
    ++ omap parse_section [entry_section today filename obituary metadata].
Proof.
  intros Hname Hmeta Hlast.
  pose proof (append_obituary_log today fs repo_root filename obituary
                metadata) as Happ.
  simpl in Happ.
  unfold list_obituaries at 1. unfold read_text. simpl. rewrite Happ. simpl.
  unfold universal_newlines. rewrite translate_newlines_app; first last.
  { by apply format_entry_no_CR. }
  { done. }
  { destruct (fs !! get_graveyard_path repo_root) as [text|] eqn:Hfs; simpl.
    - by apply Hlast.
    - done. }
  rewrite format_entry_unlines. fold (entry_section today filename obituary metadata).
  unfold re_split. rewrite split_from_heading_app; [|lia|]; first last.
  { by apply entry_section_heading_free. }
  rewrite skipn_app.
  destruct (split_from false HEADING_RE None _ 0 []) as [|piece pieces] eqn:Hsplit.
  { by apply split_from_nonempty in Hsplit. }
  simpl. rewrite drop_0. rewrite omap_app. f_equal.
  unfold list_obituaries, read_text.
  destruct (fs !! get_graveyard_path repo_root) as [text|] eqn:Hfs; simpl.
  - simpl in Hsplit. unfold re_split, universal_newlines. by rewrite Hsplit.
  - vm_compute in Hsplit. by injection Hsplit as <- <-.
Qed.

(** The section of an entry parses to a record; its file name is the
    first line of the section, stripped. *)
Lemma parse_entry_section (today : date) (filename obituary : pystr)
    (metadata : option (gmap string pystr)) :
  CR ∉ filename →
  ∃ first lived cause body,
    parse_section (entry_section today filename obituary metadata)
    = Some (Obituary first lived cause body)
    ∧ (Forall (λ c, islinebreak c = false) filename → first = strip filename).
Proof.
  intros Hcr. unfold parse_section, entry_section, splitlines.
  destruct (splitlines_from_first [] filename
              (unlines (entry_lines_of today obituary metadata)) Hcr)
    as (first & more & Hfirst).
  cbn [app]. rewrite Hfirst.
  destruct (foldl scan_line _ _) as [[lived cause] body_lines].
  eexists _, _, _, _. split; [done|].
  intros Hname. rewrite splitlines_from_line in Hfirst by done.
  by injection Hfirst as <- _.
Qed.

(** C6, as far as the code goes. For a file name and metadata values
    without newline characters (LF, CR), any obituary text and any log
    that does not end in CR, one [append_obituary] adds exactly one
    record at the end of what [list_obituaries] answers and leaves the
    earlier records as they were; the file name of the new record is
    the appended file name with the whitespace at its ends stripped,
    when that name holds no line boundary. *)
Theorem append_obituary_adds_one_record (today : date) (fs : files)
    (repo_root filename obituary : pystr)
    (metadata : option (gmap string pystr)) :
  newline_free filename → metadata_newline_free metadata →
  (∀ text, fs !! get_graveyard_path repo_root = Some text →
     last text ≠ Some CR) →
  let before := list_obituaries fs repo_root in
  let after :=
    list_obituaries
      (append_obituary today fs repo_root filename obituary metadata).1
      repo_root in
  ∃ first lived cause body,
    after = before ++ [Obituary first lived cause body]
    ∧ length after = length before + 1
    ∧ (Forall (λ c, islinebreak c = false) filename → first = strip filename).
Proof.
  intros Hname Hmeta Hlast before after.
  destruct (parse_entry_section today filename obituary metadata
              (proj2 Hname)) as (first & lived & cause & body & Hparse & Hfirst).
  exists first, lived, cause, body.
  assert (after = before ++ [Obituary first lived cause body]) as ->.
  { unfold after. rewrite list_obituaries_append by done.
    simpl. by rewrite Hparse. }
  split_and!; [done | | done]. rewrite length_app. simpl. lia.
Qed.

Lemma append_obituary_adds_one_record_witness :
  let root := py "/repo" in
  let name := py "utils.py" in
  let metadata : option (gmap string pystr) :=
    Some {[ "reason" := py "Replaced by helpers.py" ]} in
  let fs : files :=
    {[ get_graveyard_path root := GRAVEYARD_HEADER ++ py "notes" ++ [LF] ]} in
  let before := list_obituaries fs root in
  let after :=
    list_obituaries
      (append_obituary (Date 2024 11 1) fs root name
         (py "It was a utility module.") metadata).1 root in
  ∃ first lived cause body,
    after = before ++ [Obituary first lived cause body]
    ∧ length after = length before + 1
    ∧ first = strip name.
Proof.
  intros root name metadata fs before after.
  destruct (append_obituary_adds_one_record (Date 2024 11 1) fs root name
              (py "It was a utility module.") metadata)
    as (first & lived & cause & body & Hafter & Hlength & Hfirst).
  - split; apply (bool_decide_eq_false_1 _); reflexivity.
  - intros key value Hkey. simpl in Hkey.
    apply lookup_singleton_Some in Hkey as [_ <-].
    split; apply (bool_decide_eq_false_1 _); reflexivity.
  - intros text Htext. apply lookup_singleton_Some in Htext as [_ <-].
    vm_compute. discriminate.
  - exists first, lived, cause, body. split_and!; [done | done |].
    apply Hfirst. apply (bool_decide_unpack _). reflexivity.
Defined.

(** C6 as stated fails: the file name of the new record is the appended
    file name stripped, so a name with a space at an end is not kept. *)
Lemma appended_filename_not_kept :
  let root := py "/repo" in
  let name := py " old.py" in
  let fs' :=
    (append_obituary (Date 2024 11 1) ∅ root name (py "It served well.")
       None).1 in
  newline_free name
  ∧ metadata_newline_free None
  ∧ length (list_obituaries fs' root) = length (list_obituaries ∅ root) + 1
  ∧ filename <$> last (list_obituaries fs' root) = Some (py "old.py")
  ∧ py "old.py" ≠ name.
Proof.
  intros root name fs'. split_and!.
  - split; apply (bool_decide_eq_false_1 _); reflexivity.
  - intros key value Hkey. simpl in Hkey. by rewrite lookup_empty in Hkey.
  - reflexivity.
  - reflexivity.
  - discriminate.
Qed.

(** The condition on the end of the log is needed: after a log that
    ends in a heading marker and a CR, the reader merges the CR with
    the LF that opens the entry, the section that held the CR becomes
    empty and is skipped, and the number of records stays the same. *)
Lemma append_after_trailing_CR :
  let root := py "/repo" in
  let fs : files := {[ get_graveyard_path root := HEADING ++ [CR] ]} in
  let fs' :=
    (append_obituary (Date 2024 11 1) fs root (py "old.py")
       (py "It served well.") None).1 in
  length (list_obituaries fs root) = 1
  ∧ length (list_obituaries fs' root) = 1.
Proof. split; reflexivity. Qed.

(** ** The round trip of one record *)

Lemma round_trip_metadata_newline_free :
  metadata_newline_free ROUND_TRIP_METADATA.
Proof.
  intros key value Hkey. simpl in Hkey.
  repeat (apply lookup_insert_Some in Hkey as [[_ <-]|[_ Hkey]];
          [split; apply (bool_decide_eq_false_1 _); reflexivity|]).
  apply lookup_singleton_Some in Hkey as [_ <-].
  split; apply (bool_decide_eq_false_1 _); reflexivity.
Qed.

Lemma round_trip_entry_lines (today : date) (obituary : pystr) :
  entry_lines_of today obituary ROUND_TRIP_METADATA
  = [ py "**Lived:** " ++ ROUND_TRIP_LIVED ++ py "  ";
      py "**Cause of death:** R  "; [] ]
    ++ (quoted <$> splitlines obituary) ++ [[]; py "---"].
Proof. reflexivity. Qed.

(** A blockquote line touches neither [lived] nor [cause]. *)
Lemma scan_line_quoted (st : pystr * pystr * list pystr) (line : pystr) :
  (scan_line st (quoted line)).1 = st.1.
Proof.
  destruct (quoted_head line) as [t ->]. destruct st as [[lived cause] body].
  unfold scan_line.
  change (re_match false LIVED_RE (62%N :: t)) with (@None (option pystr)).
  change (re_match false CAUSE_RE (62%N :: t)) with (@None (option pystr)).
  by destruct (re_match false BODY_RE _).
Qed.

Lemma foldl_scan_line_quoted (st : pystr * pystr * list pystr)
    (ls : list pystr) :
  (foldl scan_line st (quoted <$> ls)).1 = st.1.
Proof.
  revert st. induction ls as [|l ls IH]; intros st; simpl; [done|].
  by rewrite IH, scan_line_quoted.
Qed.

(** The lines of the round-trip entry, read after any earlier lines of
    the section, leave the dates in [lived] and the reason in [cause]. *)
Lemma foldl_scan_line_round_trip (st : pystr * pystr * list pystr)
    (obituary : pystr) (today : date) :
  (foldl scan_line st (entry_lines_of today obituary ROUND_TRIP_METADATA)).1
  = (ROUND_TRIP_LIVED, py "R").
Proof.
  rewrite round_trip_entry_lines, !foldl_app.
  destruct st as [[lived cause] body_lines].
  change (foldl scan_line (lived, cause, body_lines)
            [ py "**Lived:** " ++ ROUND_TRIP_LIVED ++ py "  ";
              py "**Cause of death:** R  "; [] ])
    with (ROUND_TRIP_LIVED, py "R", body_lines).
  destruct (foldl scan_line _ (quoted <$> _)) as [[lived' cause'] body']
    eqn:Hbody.
  pose proof (foldl_scan_line_quoted (ROUND_TRIP_LIVED, py "R", body_lines)
                (splitlines obituary)) as Hq.
  rewrite Hbody in Hq. simpl in Hq. injection Hq as -> ->.
  reflexivity.
Qed.

Lemma round_trip_entry_lines_no_linebreak (today : date) (obituary : pystr) :
  Forall (Forall (λ c, islinebreak c = false))
    (entry_lines_of today obituary ROUND_TRIP_METADATA).
Proof.
  rewrite round_trip_entry_lines. repeat apply Forall_app_2.
  - apply (bool_decide_unpack _). reflexivity.
  - apply Forall_fmap. eapply Forall_impl; [apply splitlines_no_linebreak|].
    intros l Hl. by apply quoted_no_linebreak.
  - apply (bool_decide_unpack _). reflexivity.
Qed.

Lemma parse_round_trip_section (today : date) (filename obituary : pystr) :
  CR ∉ filename →
  ∃ first body,
    parse_section (entry_section today filename obituary ROUND_TRIP_METADATA)
    = Some (Obituary first ROUND_TRIP_LIVED (py "R") body).
Proof.
  intros Hcr. unfold parse_section, entry_section, splitlines.
  destruct (splitlines_from_first [] filename
              (unlines (entry_lines_of today obituary ROUND_TRIP_METADATA)) Hcr)
    as (first & more & Hfirst).
  cbn [app]. rewrite Hfirst.
  rewrite <- (app_nil_r (unlines _)), splitlines_from_unlines
    by apply round_trip_entry_lines_no_linebreak.
  simpl splitlines_from. rewrite app_nil_r, foldl_app.
  pose proof (foldl_scan_line_round_trip (foldl scan_line ([], [], []) more)
                obituary today) as Hscan.
  destruct (foldl scan_line (foldl scan_line _ more) _)
    as [[lived cause] body_lines].
  simpl in Hscan. injection Hscan as -> ->. by eexists _, _.
Qed.

(** C2: from an absent log, appending a record for a file name without
    newline characters (LF, CR), with any obituary text and the
    metadata born 2020-01-01, died 2024-12-31, reason R, and then
    listing, yields exactly one record; its [lived] holds both dates
    and its [cause] holds the reason. *)
Theorem append_then_list_round_trip (today : date) (fs : files)
    (repo_root filename obituary : pystr) :
  newline_free filename →
  fs !! get_graveyard_path repo_root = None →
  let metadata : option (gmap string pystr) :=
    Some {[ "born" := py "2020-01-01"; "died" := py "2024-12-31";
            "reason" := py "R" ]} in
  let fs' :=
    (append_obituary today fs repo_root filename obituary metadata).1 in
  ∃ record,
    list_obituaries fs' repo_root = [record]
    ∧ occurs_in (py "2020-01-01") (lived record)
    ∧ occurs_in (py "2024-12-31") (lived record)
    ∧ occurs_in (py "R") (cause record)
    ∧ lived record = py "2020-01-01 " ++ [EM_DASH] ++ py " 2024-12-31"
    ∧ cause record = py "R".
Proof.
  intros Hname Habsent metadata fs'.
  destruct (parse_round_trip_section today filename obituary (proj2 Hname))
    as (first & body & Hparse).
  exists (Obituary first ROUND_TRIP_LIVED (py "R") body). split.
  - unfold fs', metadata. fold ROUND_TRIP_METADATA.
    rewrite list_obituaries_append.
    + unfold list_obituaries at 1, read_text. rewrite Habsent. simpl.
      by rewrite Hparse.
    + done.
    + apply round_trip_metadata_newline_free.
    + intros text Htext. congruence.
  - simpl. split_and!; try done; by apply contains_spec.
Qed.

Lemma append_then_list_round_trip_witness :
  let root := py "/repo" in
  let name := py "old.py" in
  let obituary := py "Old module." ++ [LF; LF] ++ py "## gone" in
  let metadata : option (gmap string pystr) :=
    Some {[ "born" := py "2020-01-01"; "died" := py "2024-12-31";
            "reason" := py "R" ]} in
  let fs' :=
    (append_obituary (Date 2024 11 1) ∅ root name obituary metadata).1 in
  ∃ record,
    list_obituaries fs' root = [record]
    ∧ occurs_in (py "2020-01-01") (lived record)
    ∧ occurs_in (py "2024-12-31") (lived record)
    ∧ occurs_in (py "R") (cause record)
    ∧ lived record = py "2020-01-01 " ++ [EM_DASH] ++ py " 2024-12-31"
    ∧ cause record = py "R".
Proof.
  intros root name obituary metadata fs'.
  apply (append_then_list_round_trip (Date 2024 11 1) ∅ root name obituary).
  - split; apply (bool_decide_eq_false_1 _); reflexivity.
  - reflexivity.
Defined.

(** A CR in the file name is why "newline-free" has to exclude it: the
    reader turns it into LF, and a heading marker after it opens a
    section of its own. *)
Lemma carriage_return_in_filename_splits :
  let root := py "/repo" in
  let name := py "a" ++ [CR] ++ py "## b" in
  let fs' :=
    (append_obituary (Date 2024 11 1) ∅ root name (py "Old module.")
       ROUND_TRIP_METADATA).1 in
  (LF ∉ name) ∧ length (list_obituaries fs' root) = 2.
Proof.
  intros root name fs'. split; [|reflexivity].
  apply (bool_decide_eq_false_1 _). reflexivity.
Qed.

(** ** The embedding on the inputs of the repository's tests *)

Example test_no_false_positives_in_strings :
  let code :=
    py "# def not_a_function(x):" ++ [LF] ++ py "result = " ++ [DQUOTE]
    ++ py "class Fake:" ++ [DQUOTE] ++ [LF] in
  extract_symbols code = Symbols [] [].
Proof. reflexivity. Qed.

Example test_finds_functions_in_mixed_file :
  let code :=
    py "class Router:" ++ [LF] ++ py "    def __init__(self):" ++ [LF]
    ++ py "        self.routes = {}" ++ [LF; LF]
    ++ py "def handle_request(req, res):" ++ [LF]
    ++ py "    return 'OK'" ++ [LF; LF]
    ++ py "async def get_user(user_id):" ++ [LF] ++ py "    return {}" ++ [LF] in
  extract_symbols code
  = Symbols [py "__init__"; py "handle_request"; py "get_user"] [py "Router"].
Proof. reflexivity. Qed.

(** Repeated names are listed as often as they are declared. *)
Example extract_symbols_keeps_repeats :
  let code :=
    py "def a():" ++ [LF] ++ py "def b():" ++ [LF] ++ py "def a():" ++ [LF] in
  functions (extract_symbols code) = [py "a"; py "b"; py "a"].
Proof. reflexivity. Qed.

Example test_handles_empty_content :
  generate_template_obituary (py "empty.py") [] None None None
  = py "empty.py faithfully served the Python runtime, spanning 0 lines of code. It was deleted in the natural course of refactoring.".
Proof. reflexivity. Qed.

Example test_only_died_date :
  generate_template_obituary (py "notes.TXT") (py "# title" ++ [LF] ++ py "  body text")
    None (Some (py "2024-01-15")) (Some (py "obsolete"))
  = py "notes.TXT contributed to the project until 2024-01-15, spanning 2 lines of code. It was deleted due to: obsolete."
    ++ [LF; LF] ++ py "*Last words: " ++ [DQUOTE] ++ py "body text..."
    ++ [DQUOTE] ++ py "*".
Proof. reflexivity. Qed.

Example test_parses_body_text :
  let fs' :=
    (append_obituary (Date 2024 11 1) ∅ (py "/repo") (py "x.py")
       (py "It served well for many years.") (Some ∅)).1 in
  list_obituaries fs' (py "/repo")
  = [ Obituary (py "x.py")
        (py "unknown " ++ [EM_DASH] ++ py " 2024-11-01") (py "Unknown")
        (py "It served well for many years.") ].
Proof. reflexivity. Qed.

Example test_returns_correct_count :
  let root := py "/repo" in
  let fs1 :=
    (append_obituary (Date 2024 11 1) ∅ root (py "alpha.py")
       (py "Alpha obit.") (Some {[ "reason" := py "Reason A" ]})).1 in
  let fs2 :=
    (append_obituary (Date 2024 11 1) fs1 root (py "beta.py")
       (py "Beta obit.") (Some {[ "reason" := py "Reason B" ]})).1 in
  filename <$> list_obituaries fs2 root = [py "alpha.py"; py "beta.py"]
  ∧ cause <$> list_obituaries fs2 root = [py "Reason A"; py "Reason B"].
Proof. split; reflexivity. Qed.

Example test_last_words_are_included :
  (append_obituary (Date 2024 11 1) ∅ (py "/repo") (py "config.py")
     (py "A config file lived and died.")
     (Some {[ "last_words" := py "DATABASE_URL = 'sqlite:///app.db'" ]})).2
  = [LF] ++ py "## config.py" ++ [LF]
    ++ py "**Lived:** unknown " ++ [EM_DASH] ++ py " 2024-11-01  " ++ [LF]
    ++ py "**Cause of death:** Unknown  " ++ [LF]
    ++ py "**Last words:** `" ++ [DQUOTE]
    ++ py "DATABASE_URL = 'sqlite:///app.db'..." ++ [DQUOTE] ++ py "`" ++ [LF]
    ++ [LF] ++ py "> A config file lived and died." ++ [LF]
    ++ [LF] ++ py "---" ++ [LF].
Proof. reflexivity. Qed.

(** White space in a pattern runs across line ends. *)
Example extract_symbols_across_lines :
  let code :=
    [LF; LF] ++ py "  def a(" ++ [LF] ++ py "x def b(" ++ [LF; 9%N]
    ++ py "async" ++ [LF] ++ py " def c (" in
  functions (extract_symbols code) = [py "a"; py "c"].
Proof. reflexivity. Qed.

(** * Further properties of the code *)

(** ** Greedy runs of the matcher *)

Lemma prev_after_cons (prev : option char) (c : char) (w : pystr) :
  prev_after prev (c :: w) = prev_after (Some c) w.
Proof.
  unfold prev_after. destruct w as [|c' w]; [done|].
  rewrite last_cons_cons. destruct (last (c' :: w)) eqn:Hlast; [done|].
  by apply last_None in Hlast.
Qed.

Section GreedyClass.
Context {R : Type}.
Variables (ml : bool) (p : char → bool) (k : cont (R:=R)).

Local Abbreviation body := (rmatch ml (Cls p)).

Lemma star_loop_step (fuel : nat) (prev : option char) (c : char)
    (s : pystr) (g : option pystr) :
  p c = true →
  star_loop body k (S fuel) prev (c :: s) g
  = match star_loop body k fuel (Some c) s g with
    | Some x => Some x
    | None => k prev (c :: s) g
    end.
Proof.
  intros Hc. cbn [star_loop]. change (body prev (c :: s) g) with
    (λ k' : cont (R:=R), if p c then k' (Some c) s g else None).
  cbv beta. rewrite Hc.
  assert ((length s <? length (c :: s)) = true) as ->; [|done].
  apply Nat.ltb_lt. simpl. lia.
Qed.

Lemma star_loop_stop (fuel : nat) (prev : option char) (r : pystr)
    (g : option pystr) :
  match r with [] => True | c :: _ => p c = false end →
  star_loop body k fuel prev r g = k prev r g.
Proof.
  intros Hr. destruct fuel as [|fuel]; [done|]. cbn [star_loop].
  destruct r as [|c r]; [done|].
  change (body prev (c :: r) g) with
    (λ k' : cont (R:=R), if p c then k' (Some c) r g else None).
  cbv beta. by rewrite Hr.
Qed.

(** [p*] reads the whole run of [p] when what follows then matches. *)
Lemma star_cls_greedy (fuel : nat) (prev : option char) (w r : pystr)
    (g : option pystr) (x : R) :
  Forall (λ c, p c = true) w →
  match r with [] => True | c :: _ => p c = false end →
  length (w ++ r) ≤ fuel →
  k (prev_after prev w) r g = Some x →
  star_loop body k fuel prev (w ++ r) g = Some x.
Proof.
  intros Hw Hr. revert fuel prev.
  induction Hw as [|c w Hc _ IH]; intros fuel prev Hfuel Hk.
  - simpl. by rewrite star_loop_stop.
  - destruct fuel as [|fuel]; [simpl in Hfuel; lia|].
    cbn [app]. rewrite star_loop_step by done.
    rewrite (IH fuel (Some c)); [done | simpl in Hfuel; lia |].
    by rewrite <- (prev_after_cons prev).
Qed.

(** [p*] gives back one character when what follows needs it. *)
Lemma star_cls_backtrack (fuel : nat) (prev : option char) (w : pystr)
    (c : char) (g : option pystr) (x : R) :
  Forall (λ c, p c = true) w → p c = true →
  length (w ++ [c]) ≤ fuel →
  k (Some c) [] g = None →
  k (prev_after prev w) [c] g = Some x →
  star_loop body k fuel prev (w ++ [c]) g = Some x.
Proof.
  intros Hw Hc. revert fuel prev.
  induction Hw as [|a w Ha _ IH]; intros fuel prev Hfuel Hnone Hk.
  - destruct fuel as [|fuel]; [simpl in Hfuel; lia|].
    cbn [app]. rewrite star_loop_step by done.
    by rewrite star_loop_stop, Hnone.
  - destruct fuel as [|fuel]; [simpl in Hfuel; lia|].
    cbn [app]. rewrite star_loop_step by done.
    rewrite (IH fuel (Some a)); [done | simpl in Hfuel; lia | done |].
    by rewrite <- (prev_after_cons prev).
Qed.
End GreedyClass.

(** ** Stripping *)

Lemma lstrip_span (s : pystr) :
  ∃ w, s = w ++ lstrip s ∧ Forall (λ c, isspace c = true) w.
Proof.
  induction s as [|c s (w & Hs & Hw)]; simpl.
  - by exists [].
  - destruct (isspace c) eqn:Hc.
    + exists (c :: w). split; [by rewrite Hs at 1 | by constructor].
    + by exists [].
Qed.

Lemma lstrip_head (s : pystr) :
  match lstrip s with [] => True | c :: _ => isspace c = false end.
Proof.
  induction s as [|c s IH]; simpl; [done|].
  destruct (isspace c) eqn:Hc; [done|]. by simpl.
Qed.

Lemma lstrip_id (s : pystr) :
  match s with [] => True | c :: _ => isspace c = false end → lstrip s = s.
Proof. destruct s as [|c s]; simpl; [done|]. by intros ->. Qed.

Lemma lstrip_lstrip (s : pystr) : lstrip (lstrip s) = lstrip s.
Proof. apply lstrip_id, lstrip_head. Qed.

Lemma strip_lstrip (s : pystr) : strip (lstrip s) = strip s.
Proof. unfold strip. by rewrite lstrip_lstrip. Qed.

Lemma lstrip_spaces (w s : pystr) :
  Forall (λ c, isspace c = true) w → lstrip (w ++ s) = lstrip s.
Proof. induction 1 as [|c w Hc _ IH]; simpl; [done|]. by rewrite Hc. Qed.

Lemma lstrip_app (s t : pystr) :
  lstrip s ≠ [] → lstrip (s ++ t) = lstrip s ++ t.
Proof.
  induction s as [|c s IH]; simpl; [done|].
  destruct (isspace c); [apply IH | done].
Qed.

Lemma lstrip_blank_app (s t : pystr) :
  lstrip s = [] → lstrip (s ++ t) = lstrip t.
Proof.
  induction s as [|c s IH]; simpl; [done|].
  destruct (isspace c); [apply IH | done].
Qed.

Lemma rstrip_spaces (s w : pystr) :
  Forall (λ c, isspace c = true) w → rstrip (s ++ w) = rstrip s.
Proof.
  intros Hw. unfold rstrip. rewrite reverse_app, lstrip_spaces; [done|].
  by apply Forall_reverse.
Qed.

Lemma rstrip_nil_blank (s : pystr) :
  Forall (λ c, isspace c = true) s → rstrip s = [].
Proof.
  intros Hs. rewrite <- (app_nil_l s). by rewrite rstrip_spaces.
Qed.

(** Spaces around a text do not change what stripping leaves. *)
Lemma strip_pad (w1 s w2 : pystr) :
  Forall (λ c, isspace c = true) w1 → Forall (λ c, isspace c = true) w2 →
  strip (w1 ++ s ++ w2) = strip s.
Proof.
  intros H1 H2. unfold strip. rewrite lstrip_spaces by done.
  destruct (lstrip s) as [|c t] eqn:Hs.
  - rewrite lstrip_blank_app by done.
    destruct (lstrip_span w2) as (w & Hw2 & Hw).
    rewrite rstrip_nil_blank; [done|].
    rewrite Hw2 in H2. by apply Forall_app in H2 as [_ ?].
  - rewrite lstrip_app by (by rewrite Hs). rewrite Hs.
    by apply rstrip_spaces.
Qed.

Lemma strip_blank (s : pystr) :
  Forall (λ c, isspace c = true) s → strip s = [].
Proof.
  intros Hs. unfold strip. rewrite <- (app_nil_r s).
  by rewrite lstrip_spaces.
Qed.

(** What [strip] leaves has no space at its end, so the [rstrip] of
    spaces after it changes nothing. *)
Lemma rstrip_chars_strip (s : pystr) :
  rstrip_chars (py "  ") (strip s) = strip s.
Proof.
  unfold rstrip_chars, strip, rstrip. rewrite reverse_involutive.
  pose proof (lstrip_head (reverse (lstrip s))) as Hhead.
  destruct (lstrip (reverse (lstrip s))) as [|c t]; [done|].
  cbn [lstrip_chars]. rewrite bool_decide_eq_false_2; [done|].
  intros Hin. rewrite !elem_of_cons, elem_of_nil in Hin.
  destruct Hin as [->|[->|[]]]; done.
Qed.

(** ** The line patterns of the listing *)

Lemma not_LF_dot (s : pystr) : LF ∉ s → Forall (λ c, dot c = true) s.
Proof.
  intros Hs. apply Forall_forall. intros c Hc. unfold dot.
  destruct (N.eqb_spec c LF) as [->|_]; done.
Qed.

(** [(.+)] takes all of a text without LF, when the pattern ends there. *)
Lemma rmatch_group_rest {R : Type} (ml : bool) (prev : option char)
    (c : char) (r : pystr) (g : option pystr) (k : cont (R:=R)) (x : R) :
  LF ∉ c :: r →
  k (prev_after prev (c :: r)) [] (Some (c :: r)) = Some x →
  rmatch ml (Grp (Plus (Cls dot))) prev (c :: r) g k = Some x.
Proof.
  intros Hlf Hk. apply not_LF_dot in Hlf.
  apply Forall_cons in Hlf as [Hc Hr].
  unfold Plus. cbn [rmatch]. rewrite Hc.
  pose proof (star_cls_greedy ml dot
                (λ prev' s' _,
                   k prev' s' (Some (take (length (c :: r) - length s') (c :: r))))
                (length r) (Some c) r [] g x Hr I) as Hstar.
  rewrite app_nil_r in Hstar. apply Hstar; [done|].
  rewrite <- (prev_after_cons prev). simpl length. rewrite Nat.sub_0_r.
  by rewrite (take_ge (c :: r)) by (simpl; lia).
Qed.

Lemma rmatch_group_nil {R : Type} (ml : bool) (prev : option char)
    (g : option pystr) (k : cont (R:=R)) :
  rmatch ml (Grp (Plus (Cls dot))) prev [] g k = None.
Proof. reflexivity. Qed.

Lemma rmatch_cat {R : Type} (ml : bool) (r1 r2 : regex)
    (prev : option char) (s : pystr) (g : option pystr) (k : cont (R:=R)) :
  rmatch ml (r1 +> r2) prev s g k
  = rmatch ml r1 prev s g (λ prev' s' g', rmatch ml r2 prev' s' g' k).
Proof. reflexivity. Qed.

Lemma rmatch_lit {R : Type} (ml : bool) (l : pystr)
    (prev : option char) (s : pystr) (g : option pystr) (k : cont (R:=R)) :
  rmatch ml (Lit l) prev (l ++ s) g k = k (prev_after prev l) s g.
Proof.
  cbn [rmatch]. assert (strip_prefix l (l ++ s) = Some s) as ->; [|done].
  by apply strip_prefix_Some.
Qed.

Lemma rmatch_bol {R : Type} (ml : bool)
    (prev : option char) (s : pystr) (g : option pystr) (k : cont (R:=R)) :
  rmatch ml Bol prev s g k = if at_bol ml prev then k prev s g else None.
Proof. reflexivity. Qed.

Lemma rmatch_opt {R : Type} (ml : bool) (r : regex)
    (prev : option char) (s : pystr) (g : option pystr) (k : cont (R:=R)) :
  rmatch ml (Opt r) prev s g k
  = match rmatch ml r prev s g k with
    | Some x => Some x
    | None => k prev s g
    end.
Proof. reflexivity. Qed.

Lemma rmatch_cls_cons {R : Type} (ml : bool) (p : char → bool)
    (prev : option char) (c : char) (s : pystr) (g : option pystr)
    (k : cont (R:=R)) :
  rmatch ml (Cls p) prev (c :: s) g k = if p c then k (Some c) s g else None.
Proof. reflexivity. Qed.

Lemma rmatch_star {R : Type} (ml : bool) (r : regex)
    (prev : option char) (s : pystr) (g : option pystr) (k : cont (R:=R)) :
  rmatch ml (Star r) prev s g k
  = star_loop (rmatch ml r) k (length s) prev s g.
Proof. reflexivity. Qed.

(** A line made of a label and a text without LF: the group of the
    pattern [label\s*(.+)] is the text up to the white space at its
    start. *)
Lemma re_match_labelled (label rest : pystr) :
  LF ∉ rest → rest ≠ [] →
  ∃ g,
    re_match false (Lit label +> Star (Cls isspace) +> Grp (Plus (Cls dot)))
      (label ++ rest)
    = Some (Some g)
    ∧ strip g = strip rest.
Proof.
  intros Hlf Hne. unfold re_match, try_at.
  rewrite rmatch_cat, rmatch_lit, rmatch_cat, rmatch_star.
  destruct (lstrip_span rest) as (w & Hrest & Hw).
  pose proof (lstrip_head rest) as Hhead.
  destruct (lstrip rest) as [|c r] eqn:Hstrip.
  - (* only white space: the group is its last character *)
    rewrite app_nil_r in Hrest. subst w.
    destruct (exists_last Hne) as (w & c & ->).
    apply Forall_app in Hw as [Hw Hc]. rewrite Forall_singleton in Hc.
    apply not_elem_of_app in Hlf as [_ Hlf].
    exists [c]. split.
    + erewrite star_cls_backtrack; first last.
      * by apply rmatch_group_rest.
      * apply rmatch_group_nil.
      * done.
      * done.
      * done.
      * done.
    + rewrite strip_blank by (by apply Forall_singleton).
      rewrite strip_blank; [done|]. apply Forall_app. split; [done|].
      by apply Forall_singleton.
  - exists (c :: r). split.
    + assert (LF ∉ c :: r) as Hlf'.
      { rewrite Hrest in Hlf. by apply not_elem_of_app in Hlf as [_ Hlf]. }
      match goal with
      | |- context [star_loop _ ?K ?n ?prev rest None] =>
          pose proof (star_cls_greedy false isspace K n prev w (c :: r) None)
            as Hstar
      end.
      rewrite <- Hrest in Hstar. erewrite Hstar; first last.
      * by apply rmatch_group_rest.
      * done.
      * done.
      * done.
      * done.
    + by rewrite <- Hstrip, strip_lstrip.
Qed.

Lemma line_free_newline_free (s : pystr) : line_free s → newline_free s.
Proof. apply no_linebreak_chars. Qed.

(** A line that begins with neither a star nor [>] changes nothing. *)
Lemma scan_line_other (st : pystr * pystr * list pystr) (line : pystr) :
  head line ≠ Some 42%N → head line ≠ Some 62%N → scan_line st line = st.
Proof.
  intros Hstar Hquote. destruct st as [[lived cause] body_lines].
  unfold scan_line, re_match, try_at, LIVED_RE, CAUSE_RE, BODY_RE.
  rewrite !rmatch_cat. destruct line as [|c line]; [done|].
  cbn [rmatch strip_prefix at_bol].
  destruct (N.eqb_spec 42 c) as [<-|_]; [done|].
  destruct (N.eqb_spec 62 c) as [<-|_]; done.
Qed.

(** The "Last words" line changes nothing. *)
Lemma scan_line_last_words (st : pystr * pystr * list pystr) (t : pystr) :
  scan_line st (py "**Last words:** `" ++ t) = st.
Proof. by destruct st as [[lived cause] body_lines]. Qed.

(** The "Lived" line sets [lived] to its text, stripped. *)
Lemma scan_line_lived (st : pystr * pystr * list pystr) (dates : pystr) :
  LF ∉ dates →
  scan_line st (py "**Lived:** " ++ dates ++ py "  ")
  = (strip dates, st.1.2, st.2).
Proof.
  intros Hlf. destruct st as [[lived cause] body_lines]. unfold scan_line.
  change (py "**Lived:** " ++ dates ++ py "  ")
    with (py "**Lived:**" ++ (py " " ++ dates ++ py "  ")).
  destruct (re_match_labelled (py "**Lived:**") (py " " ++ dates ++ py "  "))
    as (g & Hg & Hstrip).
  { solve_not_elem. }
  { done. }
  unfold LIVED_RE. rewrite Hg. simpl group_text.
  rewrite Hstrip, rstrip_chars_strip.
  by rewrite (strip_pad (py " ") dates (py "  ")) by (by repeat constructor).
Qed.

(** The "Cause of death" line sets [cause] to its text, stripped. *)
Lemma scan_line_cause (st : pystr * pystr * list pystr) (reason : pystr) :
  LF ∉ reason →
  scan_line st (py "**Cause of death:** " ++ reason ++ py "  ")
  = (st.1.1, strip reason, st.2).
Proof.
  intros Hlf. destruct st as [[lived cause] body_lines]. unfold scan_line.
  change (re_match false LIVED_RE
            (py "**Cause of death:** " ++ reason ++ py "  "))
    with (@None (option pystr)).
  change (py "**Cause of death:** " ++ reason ++ py "  ")
    with (py "**Cause of death:**" ++ (py " " ++ reason ++ py "  ")).
  destruct (re_match_labelled (py "**Cause of death:**")
              (py " " ++ reason ++ py "  ")) as (g & Hg & Hstrip).
  { solve_not_elem. }
  { done. }
  unfold CAUSE_RE. rewrite Hg. simpl group_text.
  rewrite Hstrip, rstrip_chars_strip.
  by rewrite (strip_pad (py " ") reason (py "  ")) by (by repeat constructor).
Qed.

(** A group of any characters takes all of a text without LF, when the
    pattern ends there. *)
Lemma rmatch_group_all {R : Type} (ml : bool) (prev : option char)
    (s : pystr) (g : option pystr) (k : cont (R:=R)) (x : R) :
  LF ∉ s →
  k (prev_after prev s) [] (Some s) = Some x →
  rmatch ml (Grp (Star (Cls dot))) prev s g k = Some x.
Proof.
  intros Hlf Hk. apply not_LF_dot in Hlf. cbn [rmatch].
  pose proof (star_cls_greedy ml dot
                (λ prev' s' _, k prev' s' (Some (take (length s - length s') s)))
                (length s) prev s [] g x Hlf I) as Hstar.
  rewrite app_nil_r in Hstar. apply Hstar; [done|].
  simpl length. rewrite Nat.sub_0_r. by rewrite firstn_all.
Qed.

(** A blockquote line adds its obituary line to the body, and nothing
    for a blank one. *)
Lemma scan_line_body (st : pystr * pystr * list pystr) (line : pystr) :
  LF ∉ line →
  scan_line st (quoted line) = (st.1.1, st.1.2, st.2 ++ [body_piece line]).
Proof.
  intros Hlf. destruct st as [[lived cause] body_lines].
  unfold quoted, body_piece. destruct (truthy (strip line)); [|done].
  unfold scan_line.
  change (re_match false LIVED_RE (py "> " ++ line)) with (@None (option pystr)).
  change (re_match false CAUSE_RE (py "> " ++ line)) with (@None (option pystr)).
  assert (re_match false BODY_RE (py "> " ++ line) = Some (Some line)) as ->;
    [|done].
  unfold re_match, try_at, BODY_RE.
  change (py "> " ++ line) with (py ">" ++ (32%N :: line)).
  rewrite rmatch_cat, rmatch_bol. cbn [at_bol].
  rewrite rmatch_cat, rmatch_lit, rmatch_cat, rmatch_opt, rmatch_cls_cons.
  change (isspace 32) with true. cbv iota.
  erewrite rmatch_group_all; first last; [reflexivity | done | done].
Qed.

(** ** The record an entry is read back as *)

Lemma isdigit_not_linebreak (c : char) :
  isdigit c = true → islinebreak c = false.
Proof.
  unfold isdigit, islinebreak. rewrite andb_true_iff, !N.leb_le.
  intros [H1 H2]. rewrite !orb_false_iff, !andb_false_iff, !N.leb_gt, !N.eqb_neq.
  lia.
Qed.

Lemma str_of_date_line_free (d : date) : line_free (str_of_date d).
Proof.
  assert (∀ w n, line_free (zero_pad w n)) as Hpad.
  { intros w n. eapply Forall_impl; [apply zero_pad_digits|].
    apply isdigit_not_linebreak. }
  unfold str_of_date.
  repeat (apply Forall_app_2; [first [apply Hpad | by repeat constructor]|]).
  apply Hpad.
Qed.

Lemma entry_lines_line_free (today : date) (obituary : pystr)
    (metadata : option (gmap string pystr)) :
  metadata_line_free metadata →
  Forall line_free (entry_lines_of today obituary metadata).
Proof.
  intros Hmeta. unfold entry_lines_of.
  set (meta := default ∅ metadata).
  assert (∀ key d, line_free d → line_free (default d (meta !! key)))
    as Hdefault.
  { intros key d Hd. destruct (meta !! key) eqn:Hkey; [|done].
    by eapply Hmeta. }
  pose proof (Hdefault "born" (py "unknown")) as Hborn.
  pose proof (Hdefault "died" _ (str_of_date_line_free today)) as Hdied.
  pose proof (Hdefault "reason" (py "Unknown")) as Hreason.
  pose proof (Hdefault "last_words" [] (List.Forall_nil _)) as Hlast.
  repeat apply Forall_app_2.
  - constructor; [|constructor; [|constructor]].
    + repeat apply Forall_app_2; try done; try (by repeat constructor).
      apply Hborn. by repeat constructor.
    + repeat apply Forall_app_2; try (by repeat constructor).
      apply Hreason. by repeat constructor.
  - destruct (truthy _); constructor; [|constructor].
    repeat apply Forall_app_2; try (by repeat constructor).
    by apply Forall_take.
  - by repeat constructor.
  - apply Forall_fmap, Forall_forall. intros l Hl. simpl.
    pose proof (splitlines_no_linebreak obituary) as Hlines.
    rewrite Forall_forall in Hlines. by apply quoted_no_linebreak, Hlines.
  - repeat constructor.
Qed.

Lemma foldl_one {A B} (f : A → B → A) (a : A) (x : B) :
  foldl f a [x] = f a x.
Proof. reflexivity. Qed.

Lemma foldl_two {A B} (f : A → B → A) (a : A) (x y : B) :
  foldl f a [x; y] = f (f a x) y.
Proof. reflexivity. Qed.

Lemma foldl_scan_line_body (st : pystr * pystr * list pystr)
    (ls : list pystr) :
  Forall line_free ls →
  foldl scan_line st (quoted <$> ls)
  = (st.1.1, st.1.2, st.2 ++ (body_piece <$> ls)).
Proof.
  intros Hls. revert st. induction Hls as [|l ls Hl _ IH]; intros st; simpl.
  - destruct st as [[? ?] ?]. simpl. by rewrite app_nil_r.
  - rewrite scan_line_body by (by apply line_free_newline_free in Hl as [? _]).
    rewrite IH. simpl. by rewrite <- app_assoc.
Qed.

(** The lines of an entry, read in order, give the dates, the reason
    and the obituary lines. *)
Lemma foldl_scan_line_entry (today : date) (obituary : pystr)
    (metadata : option (gmap string pystr)) :
  metadata_line_free metadata →
  let record := appended_record today [] obituary metadata in
  foldl scan_line ([], [], []) (entry_lines_of today obituary metadata)
  = (lived record, cause record, body_piece <$> splitlines obituary).
Proof.
  intros Hmeta. cbv zeta. unfold appended_record. cbn [lived cause].
  pose proof (entry_lines_line_free today obituary metadata Hmeta) as Hfree.
  unfold entry_lines_of in *.
  set (meta := default ∅ metadata) in *.
  set (born := default _ (meta !! "born")) in *.
  set (died := default _ (meta !! "died")) in *.
  set (reason := default _ (meta !! "reason")) in *.
  set (last_words := default _ (meta !! "last_words")) in *.
  apply Forall_app in Hfree as [Hhead _].
  apply Forall_cons in Hhead as [Hlived Hhead].
  apply Forall_cons in Hhead as [Hcause _].
  apply line_free_newline_free in Hlived as [Hlived _].
  apply line_free_newline_free in Hcause as [Hcause _].
  rewrite !foldl_app, !foldl_two, foldl_one.
  assert (py "**Lived:** " ++ born ++ py " " ++ [EM_DASH] ++ py " " ++ died
          ++ py "  "
          = py "**Lived:** " ++ (born ++ py " " ++ [EM_DASH] ++ py " " ++ died)
            ++ py "  ") as Hassoc.
  { by rewrite <- !app_assoc. }
  rewrite Hassoc in *. clear Hassoc.
  rewrite scan_line_lived, scan_line_cause.
  - cbn [fst snd].
    assert (foldl scan_line
              (strip (born ++ py " " ++ [EM_DASH] ++ py " " ++ died),
               strip reason, [])
              (if truthy last_words
               then [ py "**Last words:** `" ++ [DQUOTE] ++ take 80 last_words
                      ++ py "..." ++ [DQUOTE] ++ py "`" ]
               else [])
            = (strip (born ++ py " " ++ [EM_DASH] ++ py " " ++ died),
               strip reason, [])) as ->.
    { destruct (truthy last_words); [|done]. rewrite foldl_one.
      apply (scan_line_last_words _ ([DQUOTE] ++ _)). }
    rewrite (scan_line_other _ []) by done.
    rewrite foldl_scan_line_body by apply splitlines_no_linebreak.
    cbn [fst snd app]. rewrite (scan_line_other _ []) by done.
    by rewrite scan_line_other.
  - revert Hcause. rewrite !not_elem_of_app. tauto.
  - revert Hlived. rewrite !not_elem_of_app. tauto.
Qed.

Lemma metadata_line_free_newline_free (metadata : option (gmap string pystr)) :
  metadata_line_free metadata → metadata_newline_free metadata.
Proof.
  intros Hmeta key value Hkey. by eapply line_free_newline_free, Hmeta.
Qed.

Lemma parse_entry_section_exact (today : date) (filename obituary : pystr)
    (metadata : option (gmap string pystr)) :
  line_free filename → metadata_line_free metadata →
  parse_section (entry_section today filename obituary metadata)
  = Some (appended_record today filename obituary metadata).
Proof.
  intros Hname Hmeta. unfold parse_section, entry_section, splitlines.
  cbn [app]. rewrite splitlines_from_line by done.
  rewrite <- (app_nil_r (unlines _)), splitlines_from_unlines
    by (by apply entry_lines_line_free).
  cbn [splitlines_from]. rewrite !app_nil_r, app_nil_l.
  by rewrite foldl_scan_line_entry.
Qed.

(** X1: what is appended is what is listed. For a file name and
    metadata values without line boundaries, and a log that does not
    end in CR, the listing after [append_obituary] is the listing
    before, followed by one record: the file name stripped, the dates
    joined by the dash and stripped, the reason stripped, and as body
    the lines of the obituary joined by single spaces and stripped,
    where a blank line counts as an empty line: it is not dropped, so
    the spaces on its two sides meet. *)
Theorem append_then_list_record (today : date) (fs : files)
    (repo_root filename obituary : pystr)
    (metadata : option (gmap string pystr)) :
  line_free filename → metadata_line_free metadata →
  (∀ text, fs !! get_graveyard_path repo_root = Some text →
     last text ≠ Some CR) →
  list_obituaries
    (append_obituary today fs repo_root filename obituary metadata).1
    repo_root
  = list_obituaries fs repo_root
    ++ [appended_record today filename obituary metadata].
Proof.
  intros Hname Hmeta Hlast. rewrite list_obituaries_append.
  - simpl. by rewrite parse_entry_section_exact.
  - by apply line_free_newline_free.
  - by apply metadata_line_free_newline_free.
  - done.
Qed.

Lemma append_then_list_record_witness :
  let root := py "/repo" in
  let metadata : option (gmap string pystr) :=
    Some {[ "born" := py " 2022-03-14"; "reason" := py "Twitter API v1 " ]} in
  let obituary := py "It served well." ++ [LF; LF] ++ py "  > Rest." ++ [CR] in
  list_obituaries
    (append_obituary (Date 2024 11 1) ∅ root (py " legacy oauth.py ") obituary
       metadata).1 root
  = [ Obituary (py "legacy oauth.py")
        (py "2022-03-14 " ++ [EM_DASH] ++ py " 2024-11-01")
        (py "Twitter API v1") (py "It served well.    > Rest.") ].
Proof.
  intros root metadata obituary.
  refine (append_then_list_record (Date 2024 11 1) ∅ root
            (py " legacy oauth.py ") obituary metadata _ _ _).
  - apply (bool_decide_unpack _). reflexivity.
  - intros key value Hkey. simpl in Hkey.
    apply lookup_insert_Some in Hkey as [[_ <-]|[_ Hkey]].
    + apply (bool_decide_unpack _). reflexivity.
    + apply lookup_singleton_Some in Hkey as [_ <-].
      apply (bool_decide_unpack _). reflexivity.
  - intros text Htext. by rewrite lookup_empty in Htext.
Defined.

(** After an append the log ends in LF. *)
Lemma format_entry_last (today : date) (prior filename obituary : pystr)
    (metadata : option (gmap string pystr)) :
  last (prior ++ format_entry today filename obituary metadata) = Some LF.
Proof.
  rewrite format_entry_unlines. unfold entry_lines_of.
  rewrite !app_assoc, unlines_app.
  change (unlines [[]; py "---"]) with ([LF] ++ py "---" ++ [LF]).
  by rewrite !app_assoc, last_snoc.
Qed.

Lemma append_obituary_log_last (today : date) (fs : files)
    (repo_root filename obituary : pystr)
    (metadata : option (gmap string pystr)) (text : pystr) :
  (append_obituary today fs repo_root filename obituary metadata).1
    !! get_graveyard_path repo_root = Some text →
  last text ≠ Some CR.
Proof.
  rewrite append_obituary_log. intros [= <-]. by rewrite format_entry_last.
Qed.

(** X2: appends add up. A run of [append_obituary] calls on one log,
    each with a file name and metadata values without line boundaries,
    is listed as the records before followed by one record per call, in
    the order of the calls. *)
Theorem append_all_listed (fs : files) (repo_root : pystr)
    (calls : list append_call) :
  Forall plain_call calls →
  (∀ text, fs !! get_graveyard_path repo_root = Some text →
     last text ≠ Some CR) →
  list_obituaries (append_all fs repo_root calls) repo_root
  = list_obituaries fs repo_root
    ++ ((λ c, appended_record (call_today c) (call_filename c)
                (call_obituary c) (call_metadata c)) <$> calls).
Proof.
  intros Hcalls. revert fs.
  induction Hcalls as [|c calls [Hname Hmeta] _ IH]; intros fs Hlast.
  - simpl. by rewrite app_nil_r.
  - unfold append_all. cbn [foldl]. fold (append_all
      (append_obituary (call_today c) fs repo_root (call_filename c)
         (call_obituary c) (call_metadata c)).1 repo_root calls).
    rewrite IH by apply append_obituary_log_last.
    rewrite list_obituaries_append; first last.
    { done. }
    { by apply metadata_line_free_newline_free. }
    { by apply line_free_newline_free. }
    cbn [omap list_omap]. rewrite parse_entry_section_exact by done.
    by rewrite <- app_assoc.
Qed.

Lemma append_all_listed_witness :
  let root := py "/repo" in
  let calls :=
    [ AppendCall (Date 2024 11 1) (py "alpha.py") (py "Alpha obit.")
        (Some {[ "reason" := py "Reason A" ]});
      AppendCall (Date 2024 11 2) (py "beta.py") (py "Beta obit.") None ] in
  list_obituaries (append_all ∅ root calls) root
  = [ Obituary (py "alpha.py")
        (py "unknown " ++ [EM_DASH] ++ py " 2024-11-01") (py "Reason A")
        (py "Alpha obit.");
      Obituary (py "beta.py")
        (py "unknown " ++ [EM_DASH] ++ py " 2024-11-02") (py "Unknown")
        (py "Beta obit.") ].
Proof.
  intros root calls.
  etransitivity; [apply (append_all_listed ∅ root calls)|].
  - apply Forall_cons; split; [|apply Forall_cons; split; [|apply List.Forall_nil]].
    + split; [apply (bool_decide_unpack _); reflexivity|].
      intros key value Hkey. simpl in Hkey.
      apply lookup_singleton_Some in Hkey as [_ <-].
      apply (bool_decide_unpack _). reflexivity.
    + split; [apply (bool_decide_unpack _); reflexivity|].
      intros key value Hkey. simpl in Hkey. by rewrite lookup_empty in Hkey.
  - intros text Htext. by rewrite lookup_empty in Htext.
  - vm_compute. reflexivity.
Defined.

(** X3: creating the log does not show in the listing: the header
    holds no record. *)
Theorem ensure_graveyard_lists_nothing (fs : files) (repo_root : pystr) :
  list_obituaries (ensure_graveyard fs repo_root) repo_root
  = list_obituaries fs repo_root.
Proof.
  destruct (fs !! get_graveyard_path repo_root) as [text|] eqn:Hfs.
  - by rewrite (ensure_graveyard_present _ _ _ Hfs).
  - unfold list_obituaries, read_text.
    rewrite ensure_graveyard_lookup, Hfs. reflexivity.
Qed.

(** X4: a log in which no line after the first begins with the heading
    marker holds no record, whatever else it holds. *)
Theorem list_obituaries_no_heading (fs : files) (repo_root text : pystr) :
  fs !! get_graveyard_path repo_root = Some text →
  ¬ occurs_in ([LF] ++ py "## ") (universal_newlines text) →
  list_obituaries fs repo_root = [].
Proof.
  intros Hfs Hno. unfold list_obituaries, read_text. rewrite Hfs. simpl.
  unfold re_split. by rewrite split_from_no_heading.
Qed.

Lemma list_obituaries_no_heading_witness :
  let root := py "/repo" in
  let text :=
    py "## old.py" ++ [LF] ++ py "**Lived:** 2020 " ++ [EM_DASH] ++ py " 2024  "
    ++ [LF] ++ py "> Gone." ++ [LF] ++ py "### notes" ++ [LF] in
  let fs : files := {[ get_graveyard_path root := text ]} in
  list_obituaries fs root = [].
Proof.
  intros root text fs.
  apply (list_obituaries_no_heading fs root text); [reflexivity|].
  by apply not_occurs_in.
Defined.

(** X5: the entry returned by [append_obituary] is the end of what
    [read_graveyard] answers afterwards, after what it answered before
    (the header for a new log), for a file name and metadata values
    without newline characters and a log that does not end in CR. *)
Theorem read_graveyard_after_append (today : date) (fs : files)
    (repo_root filename obituary : pystr)
    (metadata : option (gmap string pystr)) :
  newline_free filename → metadata_newline_free metadata →
  (∀ text, fs !! get_graveyard_path repo_root = Some text →
     last text ≠ Some CR) →
  let '(fs', entry) :=
    append_obituary today fs repo_root filename obituary metadata in
  read_graveyard fs' repo_root
  = match fs !! get_graveyard_path repo_root with
    | Some _ => read_graveyard fs repo_root
    | None => GRAVEYARD_HEADER
    end ++ entry.
Proof.
  intros Hname Hmeta Hlast.
  pose proof (append_obituary_log today fs repo_root filename obituary
                metadata) as Hlog.
  simpl in *. unfold read_graveyard at 1. unfold read_text. rewrite Hlog.
  simpl. unfold universal_newlines. rewrite translate_newlines_app.
  - f_equal. unfold read_graveyard, read_text.
    by destruct (fs !! get_graveyard_path repo_root).
  - destruct (fs !! get_graveyard_path repo_root) as [text|] eqn:Hfs;
      [by apply Hlast | done].
  - done.
  - by apply format_entry_no_CR.
Qed.

Lemma read_graveyard_after_append_witness :
  let root := py "/repo" in
  let call :=
    append_obituary (Date 2024 11 1) ∅ root (py "file.py") (py "An obituary.")
      (Some ∅) in
  read_graveyard call.1 root = GRAVEYARD_HEADER ++ call.2.
Proof.
  intros root call.
  refine (read_graveyard_after_append (Date 2024 11 1) ∅ root (py "file.py")
            (py "An obituary.") (Some ∅) _ _ _).
  - split; apply (bool_decide_eq_false_1 _); reflexivity.
  - intros key value Hkey. simpl in Hkey. by rewrite lookup_empty in Hkey.
  - intros text Htext. by rewrite lookup_empty in Htext.
Defined.

(** X6: a section without marker lines is still a record. When no line
    after the first begins with a star or with [>], the record has the
    first line, stripped, as its file name and empty fields. *)
Theorem parse_section_without_markers (section first : pystr)
    (rest : list pystr) :
  splitlines section = first :: rest →
  Forall (λ line, head line ≠ Some 42%N ∧ head line ≠ Some 62%N) rest →
  parse_section section = Some (Obituary (strip first) [] [] []).
Proof.
  intros Hlines Hrest. unfold parse_section. rewrite Hlines.
  assert (foldl scan_line ([], [], []) rest = ([], [], [])) as ->; [|done].
  clear Hlines. generalize (@nil N, @nil N, @nil pystr).
  induction Hrest as [|line rest [Hstar Hquote] _ IH]; intros st; [done|].
  cbn [foldl]. rewrite scan_line_other by done. apply IH.
Qed.

Lemma parse_section_without_markers_witness :
  parse_section (py " notes.txt " ++ [LF] ++ py "Lived: long" ++ [LF; LF]
                 ++ py " > kept for the record" ++ [LF] ++ py "---" ++ [LF])
  = Some (Obituary (py "notes.txt") [] [] []).
Proof.
  refine (parse_section_without_markers _ (py " notes.txt ")
            [py "Lived: long"; []; py " > kept for the record"; py "---"] _ _).
  - reflexivity.
  - repeat constructor; discriminate.
Defined.

(** ** File names and their extensions *)

Lemma rfind_notin (c : char) (s : pystr) : c ∉ s → rfind c s = None.
Proof.
  induction s as [|x s IH]; intros Hc; [done|].
  apply not_elem_of_cons in Hc as [Hx Hs]. cbn [rfind]. rewrite IH by done.
  destruct (N.eqb_spec x c); congruence.
Qed.

Lemma rfind_app_notin (c : char) (s t : pystr) :
  c ∉ t → rfind c (s ++ t) = rfind c s.
Proof.
  intros Hc. induction s as [|x s IH]; [by apply rfind_notin|].
  cbn [app rfind]. by rewrite IH.
Qed.

Lemma rfind_last (c : char) (a x : pystr) :
  c ∉ x → rfind c (a ++ c :: x) = Some (length a).
Proof.
  intros Hc. induction a as [|y a IH].
  - cbn [app rfind length]. rewrite rfind_notin by done.
    by rewrite N.eqb_refl.
  - cbn [app rfind length]. by rewrite IH.
Qed.

Lemma rfind_lt (c : char) (s : pystr) (i : nat) :
  rfind c s = Some i → i < length s.
Proof.
  revert i. induction s as [|x s IH]; intros i; [done|].
  cbn [rfind length]. destruct (rfind c s) as [j|].
  - intros [= <-]. specialize (IH j eq_refl). lia.
  - destruct (x =? c)%N; intros [= <-]. lia.
Qed.

Lemma splitext_ext_no_dot (p : pystr) : 46%N ∉ p → splitext_ext p = [].
Proof. intros Hp. unfold splitext_ext. by rewrite rfind_notin. Qed.

(** The extension is cut at the last dot, when the name before it has
    a character that is not a dot. *)
Lemma splitext_ext_app (stem x : pystr) :
  46%N ∉ x → 47%N ∉ x →
  existsb (λ c, negb (c =? 46)%N) (basename stem) = true →
  splitext_ext (stem ++ 46%N :: x) = 46%N :: x.
Proof.
  intros Hdot Hsep Hname. unfold splitext_ext.
  rewrite rfind_last by done.
  rewrite rfind_app_notin
    by (apply not_elem_of_cons; split; [discriminate | done]).
  unfold basename in Hname.
  destruct (rfind 47%N stem) as [i|] eqn:Hi.
  - apply rfind_lt in Hi.
    replace (i <? length stem) with true
      by (symmetry; apply Nat.ltb_lt; lia).
    rewrite drop_app_le by lia.
    replace (length stem - S i) with (length (drop (S i) stem))
      by (rewrite length_drop; lia).
    rewrite take_app_length, Hname. by rewrite drop_app_length.
  - rewrite Nat.sub_0_r, drop_0, take_app_length, Hname.
    by rewrite drop_app_length.
Qed.

(** Appends brought to the right, literals pushed inside. *)
Ltac reassoc := repeat (progress (rewrite <- ?app_assoc; cbn [app])).

Lemma join_one (sep a : pystr) : join sep [a] = a.
Proof. done. Qed.

Lemma join_two (sep a b : pystr) : join sep [a; b] = a ++ sep ++ b.
Proof. done. Qed.

Lemma join_three (sep a b c : pystr) :
  join sep [a; b; c] = a ++ sep ++ b ++ sep ++ c.
Proof. done. Qed.

(** The first sentence of the description. *)
Lemma get_file_description_head (filename content : pystr) :
  ∃ rest,
    get_file_description filename content
    = filename ++ py " was a "
      ++ default (py "source file") (ext_map !! lower (splitext_ext filename))
      ++ py " with " ++ str_of_nat (length (splitlines content))
      ++ py " lines" ++ rest.
Proof.
  unfold get_file_description. cbv zeta.
  destruct (truthy (classes (extract_symbols content)));
    destruct (truthy (functions (extract_symbols content)));
    cbn [app]; rewrite ?join_one, ?join_two, ?join_three;
    eexists; reassoc; reflexivity.
Qed.

(** The opening of the fallback obituary. *)
Lemma generate_template_obituary_head (filename content : pystr)
    (born died reason : option pystr) :
  ∃ rest,
    generate_template_obituary filename content born died reason
    = filename ++ py " "
      ++ default (py "contributed to the project")
           (ext_roles !! lower (splitext_ext filename))
      ++ rest.
Proof. unfold generate_template_obituary. cbv zeta. by eexists. Qed.

(** X7: the file type and the role are found by the text from the last
    dot of the file name on, in lower case, when the name before that
    dot holds a character other than a dot and no [/] follows it. *)
Theorem classified_by_lowered_extension (stem x content : pystr)
    (born died reason : option pystr) :
  46%N ∉ x → 47%N ∉ x →
  existsb (λ c, negb (c =? 46)%N) (basename stem) = true →
  let filename := stem ++ py "." ++ x in
  let key := py "." ++ lower x in
  (∃ rest,
     get_file_description filename content
     = filename ++ py " was a "
       ++ default (py "source file") (ext_map !! key) ++ py " with " ++ rest)
  ∧ (∃ rest,
       generate_template_obituary filename content born died reason
       = filename ++ py " "
         ++ default (py "contributed to the project") (ext_roles !! key)
         ++ rest).
Proof.
  intros Hdot Hsep Hname filename key.
  assert (lower (splitext_ext filename) = key) as Hkey.
  { unfold filename. cbn [app]. by rewrite splitext_ext_app. }
  split.
  - destruct (get_file_description_head filename content) as [rest ->].
    rewrite Hkey. by eexists.
  - destruct (generate_template_obituary_head filename content born died
                reason) as [rest ->].
    rewrite Hkey. by eexists.
Qed.

Lemma classified_by_lowered_extension_witness :
  (∃ rest,
     get_file_description (py "src/v1.2/Legacy.PY") (py "x = 1")
     = py "src/v1.2/Legacy.PY was a Python module with " ++ rest)
  ∧ (∃ rest,
       generate_template_obituary (py "src/v1.2/Legacy.PY") (py "x = 1")
         None None None
       = py "src/v1.2/Legacy.PY faithfully served the Python runtime" ++ rest).
Proof.
  refine (classified_by_lowered_extension (py "src/v1.2/Legacy") (py "PY")
            (py "x = 1") None None None _ _ eq_refl);
    apply (bool_decide_eq_false_1 _); reflexivity.
Defined.

(** X8: a file name without a dot has no extension: it is described as
    a source file that contributed to the project. *)
Theorem no_dot_no_extension (filename content : pystr)
    (born died reason : option pystr) :
  46%N ∉ filename →
  (∃ rest,
     get_file_description filename content
     = filename ++ py " was a source file with " ++ rest)
  ∧ (∃ rest,
       generate_template_obituary filename content born died reason
       = filename ++ py " contributed to the project" ++ rest).
Proof.
  intros Hdot.
  assert (lower (splitext_ext filename) = []) as Hkey
    by (by rewrite splitext_ext_no_dot).
  split.
  - destruct (get_file_description_head filename content) as [rest ->].
    rewrite Hkey. by eexists.
  - destruct (generate_template_obituary_head filename content born died
                reason) as [rest ->].
    rewrite Hkey. by eexists.
Qed.

Lemma no_dot_no_extension_witness :
  (∃ rest,
     get_file_description (py "Makefile") (py "all:") 
     = py "Makefile was a source file with " ++ rest)
  ∧ (∃ rest,
       generate_template_obituary (py "Makefile") (py "all:") None None None
       = py "Makefile contributed to the project" ++ rest).
Proof.
  refine (no_dot_no_extension (py "Makefile") (py "all:") None None None _).
  apply (bool_decide_eq_false_1 _); reflexivity.
Defined.

(** ** Lines that git prints *)

Lemma rstrip_span (s : pystr) :
  ∃ w, s = rstrip s ++ w ∧ Forall (λ c, isspace c = true) w.
Proof.
  destruct (lstrip_span (reverse s)) as (w & Hs & Hw).
  exists (reverse w). split; [|by apply Forall_reverse].
  unfold rstrip. rewrite <- reverse_app, <- Hs. by rewrite reverse_involutive.
Qed.

Lemma rstrip_rstrip (s : pystr) : rstrip (rstrip s) = rstrip s.
Proof.
  unfold rstrip. by rewrite reverse_involutive, lstrip_lstrip.
Qed.

Lemma rstrip_id (s : pystr) :
  match last s with None => True | Some c => isspace c = false end →
  rstrip s = s.
Proof.
  intros Hs. unfold rstrip. rewrite lstrip_id; [apply reverse_involutive|].
  destruct (reverse s) as [|c r] eqn:Hr; [done|].
  apply (f_equal reverse) in Hr. rewrite reverse_involutive in Hr.
  subst s. by rewrite reverse_cons, last_snoc in Hs.
Qed.

Lemma rstrip_last (s : pystr) :
  match last (rstrip s) with None => True | Some c => isspace c = false end.
Proof.
  unfold rstrip. pose proof (lstrip_head (reverse s)) as Hhead.
  destruct (lstrip (reverse s)) as [|c r]; [done|].
  by rewrite reverse_cons, last_snoc.
Qed.

Lemma strip_strip (s : pystr) : strip (strip s) = strip s.
Proof.
  unfold strip. set (t := lstrip s).
  assert (lstrip (rstrip t) = rstrip t) as ->; [|apply rstrip_rstrip].
  apply lstrip_id. destruct (rstrip_span t) as (w & Ht & _).
  pose proof (lstrip_head s) as Hhead. fold t in Hhead.
  destruct (rstrip t) as [|c r]; [done|]. by rewrite Ht in Hhead.
Qed.

Lemma line_free_strip (s : pystr) : line_free s → line_free (strip s).
Proof.
  unfold line_free, strip. intros Hs.
  destruct (lstrip_span s) as (w & Hw & _).
  destruct (rstrip_span (lstrip s)) as (w' & Hw' & _).
  rewrite Hw, Hw' in Hs.
  by apply Forall_app in Hs as [_ [Hs _]%Forall_app].
Qed.

(** The ends of a text that stripping leaves alone are not spaces. *)
Lemma strip_fixed_ends (s : pystr) :
  strip s = s →
  match s with [] => True | c :: _ => isspace c = false end
  ∧ match last s with None => True | Some c => isspace c = false end.
Proof.
  intros Hs. split.
  - pose proof (lstrip_head s) as Hhead.
    destruct (rstrip_span (lstrip s)) as (w & Hw & _).
    fold (strip s) in Hw. rewrite Hs in Hw.
    destruct s as [|c s']; [done|]. by rewrite Hw in Hhead.
  - rewrite <- Hs. apply rstrip_last.
Qed.

Lemma strip_id (s : pystr) :
  match s with [] => True | c :: _ => isspace c = false end →
  match last s with None => True | Some c => isspace c = false end →
  strip s = s.
Proof.
  intros Hhead Hlast. unfold strip. rewrite lstrip_id by done.
  by apply rstrip_id.
Qed.

(** The non-blank lines of a text, stripped. *)
Lemma stripped_lines_tidy (s : pystr) :
  Forall tidy (strip <$> List.filter (λ d, truthy (strip d)) (splitlines s)).
Proof.
  apply Forall_fmap, Forall_forall. intros d Hd.
  apply list_elem_of_In, filter_In in Hd as [Hd Htruthy].
  apply list_elem_of_In in Hd.
  pose proof (splitlines_no_linebreak s) as Hlines.
  rewrite Forall_forall in Hlines. specialize (Hlines d Hd).
  cbn. split; [|split].
  - by destruct (strip d).
  - apply strip_strip.
  - by apply line_free_strip.
Qed.

Lemma splitlines_from_line_free (cur a : pystr) :
  line_free a →
  splitlines_from cur false a
  = match cur ++ a with [] => [] | _ => [cur ++ a] end.
Proof.
  intros Ha. revert cur.
  induction Ha as [|c a Hc _ IH]; intros cur.
  - cbn [splitlines_from]. by rewrite app_nil_r.
  - cbn [splitlines_from andb]. rewrite Hc, IH. by rewrite <- app_assoc.
Qed.

(** Tidy lines, each ended by LF, are read back as they are. *)
Lemma splitlines_unlines_tidy (lines : list pystr) :
  Forall tidy lines → splitlines (unlines lines) = lines.
Proof.
  intros Hlines. unfold splitlines.
  rewrite <- (app_nil_r (unlines lines)), splitlines_from_unlines.
  - cbn [splitlines_from]. by rewrite app_nil_r.
  - eapply Forall_impl; [exact Hlines|]. by intros l (_ & _ & Hl).
Qed.

Lemma stripped_tidy_lines (lines : list pystr) :
  Forall tidy lines →
  strip <$> List.filter (λ d, truthy (strip d)) lines = lines.
Proof.
  induction 1 as [|l lines (Hne & Hstrip & _) _ IH]; [done|].
  cbn [List.filter]. rewrite Hstrip.
  destruct l as [|c l]; [done|]. cbn [truthy fmap list_fmap].
  change (list_fmap _ _ strip ?x) with (strip <$> x).
  by rewrite Hstrip, IH.
Qed.

Lemma last_unlines (lines : list pystr) (l : pystr) :
  unlines (lines ++ [l]) = (unlines lines ++ l) ++ [LF].
Proof.
  rewrite unlines_app. unfold unlines at 2. cbn [fmap list_fmap concat].
  by rewrite app_nil_r, app_assoc.
Qed.

(** Stripping the whole output takes the last LF away and no more. *)
Lemma strip_unlines_tidy (lines : list pystr) (l : pystr) :
  Forall tidy (lines ++ [l]) →
  strip (unlines (lines ++ [l])) = unlines lines ++ l.
Proof.
  intros Hall. rewrite last_unlines.
  pose proof (strip_pad [] (unlines lines ++ l) [LF]) as Hpad.
  cbn [app] in Hpad. rewrite Hpad by (by repeat constructor). clear Hpad.
  apply Forall_app in Hall as [Hlines Hl].
  rewrite Forall_singleton in Hl. destruct Hl as (Hne & Hstrip & _).
  apply strip_fixed_ends in Hstrip as [Hhead Hlast].
  apply strip_id.
  - destruct lines as [|l0 lines'].
    + cbn. by destruct l.
    + apply Forall_cons in Hlines as [(Hne0 & Hstrip0 & _) _].
      apply strip_fixed_ends in Hstrip0 as [Hhead0 _].
      destruct l0; [done|]. done.
  - destruct l as [|c l] using rev_ind; [done|].
    by rewrite app_assoc, last_snoc in *.
Qed.

(** X9: the dates come both or not at all, and each is a non-empty line
    without outer white space. *)
Theorem get_git_dates_both_or_neither (git : commands) (filepath : pystr) :
  match get_git_dates git filepath with
  | (None, None) => True
  | (Some born, Some died) => tidy born ∧ tidy died
  | _ => False
  end.
Proof.
  unfold get_git_dates.
  destruct (git _) as [returncode stdout|e]; [|done].
  cbv zeta. pose proof (stripped_lines_tidy (strip stdout)) as Htidy.
  destruct (strip <$> _) as [|d dates] eqn:Hdates; [done|].
  cbn [truthy].
  assert (is_Some (last (d :: dates))) as [b Hb].
  { destruct (last (d :: dates)) eqn:Hlast; [done|].
    by apply last_None in Hlast. }
  rewrite Hb. cbn [head]. split.
  - rewrite Forall_forall in Htidy. apply Htidy.
    apply last_Some in Hb as [pre ->]. set_solver.
  - by apply Forall_cons in Htidy as [? _].
Qed.

(** X10: when git prints one tidy date a line, newest first, the file
    was born on the last and died on the first, whatever the return
    code. *)
Theorem get_git_dates_oldest_newest (git : commands) (filepath : pystr)
    (returncode : Z) (dates : list pystr) :
  Forall tidy dates →
  git [py "git"; py "log"; py "--follow"; py "--format=%as"; py "--"; filepath]
    = Completed returncode (unlines dates) →
  get_git_dates git filepath = (last dates, head dates).
Proof.
  intros Htidy Hgit. unfold get_git_dates. rewrite Hgit. cbv zeta.
  destruct dates as [|d dates] using rev_ind; [done|]. clear IHdates.
  rewrite strip_unlines_tidy by done.
  assert (splitlines (unlines dates ++ d) = dates ++ [d]) as ->.
  { apply Forall_app in Htidy as [Hdates Hd].
    rewrite Forall_singleton in Hd. destruct Hd as (Hne & _ & Hfree).
    unfold splitlines. rewrite splitlines_from_unlines.
    - rewrite splitlines_from_line_free by done. by destruct d.
    - eapply Forall_impl; [exact Hdates|]. by intros l (_ & _ & Hl). }
  rewrite stripped_tidy_lines by done. by destruct dates.
Qed.

Lemma get_git_dates_oldest_newest_witness :
  let git : commands :=
    λ _, Completed 1 (py "2024-11-01" ++ [LF] ++ py "2023-06-30" ++ [LF]
                      ++ py "2022-03-14" ++ [LF]) in
  get_git_dates git (py "src/auth.py")
  = (Some (py "2022-03-14"), Some (py "2024-11-01")).
Proof.
  intros git.
  refine (get_git_dates_oldest_newest git (py "src/auth.py") 1
            [py "2024-11-01"; py "2023-06-30"; py "2022-03-14"] _ eq_refl).
  repeat (apply Forall_cons; split; [|]); [..|apply List.Forall_nil];
    (split; [discriminate | split; [reflexivity|]]);
    apply (bool_decide_unpack _); reflexivity.
Defined.

(** X11: the files staged for deletion, by what git does. When git
    completes, the answer is a list of non-empty lines without outer
    white space, empty when the return code is not zero. When git cannot
    be run, the exception escapes: only [CalledProcessError] is caught,
    and answered with the empty list. *)
Theorem get_deleted_files_from_git_tidy (git : commands) :
  match git [py "git"; py "diff"; py "--cached"; py "--diff-filter=D";
             py "--name-only"] with
  | Completed returncode stdout =>
      ∃ names,
        get_deleted_files_from_git git = inr names
        ∧ Forall tidy names
        ∧ (returncode ≠ 0%Z → names = [])
  | Failed CalledProcessError => get_deleted_files_from_git git = inr []
  | Failed e => get_deleted_files_from_git git = inl e
  end.
Proof.
  unfold get_deleted_files_from_git, run_checked.
  destruct (git _) as [returncode stdout|e].
  - destruct (Z.eqb_spec returncode 0) as [->|Hrc].
    + eexists. split; [done|]. split; [apply stripped_lines_tidy|done].
    + exists []. split; [done|]. split; [apply List.Forall_nil|done].
  - by destruct e.
Qed.

(** Git that is not installed: the exception of [subprocess.run]
    escapes. *)
Example get_deleted_files_from_git_escapes :
  get_deleted_files_from_git (λ _, Failed FileNotFoundError)
  = inl FileNotFoundError.
Proof. reflexivity. Qed.

(** X12: tidy names, printed one a line by a git that succeeds, are
    returned as they are, in their order. *)
Theorem get_deleted_files_from_git_exact (git : commands)
    (names : list pystr) :
  Forall tidy names →
  git [py "git"; py "diff"; py "--cached"; py "--diff-filter=D";
       py "--name-only"] = Completed 0 (unlines names) →
  get_deleted_files_from_git git = inr names.
Proof.
  intros Htidy Hgit. unfold get_deleted_files_from_git, run_checked.
  rewrite Hgit. cbn [Z.eqb].
  by rewrite splitlines_unlines_tidy, stripped_tidy_lines.
Qed.

Lemma get_deleted_files_from_git_exact_witness :
  let git : commands :=
    λ _, Completed 0 (py "src/old api.py" ++ [LF] ++ py "docs/gone.md" ++ [LF]) in
  get_deleted_files_from_git git
  = inr [py "src/old api.py"; py "docs/gone.md"].
Proof.
  intros git.
  refine (get_deleted_files_from_git_exact git
            [py "src/old api.py"; py "docs/gone.md"] _ eq_refl).
  repeat (apply Forall_cons; split; [|]); [..|apply List.Forall_nil];
    (split; [discriminate | split; [reflexivity|]]);
    apply (bool_decide_unpack _); reflexivity.
Defined.

(** ** The hook *)







Lemma lor_sets_bits (m x : N) : N.land (N.lor m x) x = x.
Proof.
  apply N.bits_inj. intros i. rewrite N.land_spec, N.lor_spec.
  by destruct (N.testbit m i), (N.testbit x i).
Qed.







(** X16: whenever [install_hook] returns having changed something, the
    hook file can be executed by everyone. *)
Theorem install_hook_written_executable (git : commands) (umask : N)
    (w w' : hook_fs) (repo_root : option pystr) (hook_path : pystr) :
  install_hook git umask w repo_root = (w', inr hook_path) →
  w' ≠ w →
  ∃ node, inodes w' !! hook_path = Some node ∧ executable (st_mode node).
Proof.
  unfold install_hook.
  destruct (get_hooks_dir git repo_root) as [e'|hooks_dir]; [done|].
  destruct (negb _); [done|]. destruct (bool_decide _); [done|].
  destruct (inodes w !! _) as [hook|].
  - cbv zeta. destruct (contains _ _); [by intros [= <- <-]|].
    destruct (owned hook); [|done]. intros [= <- <-] _.
    cbn [inodes]. rewrite lookup_insert_eq. eexists. split; [done|].
    apply lor_sets_bits.
  - intros [= <- <-] _. cbn [inodes]. rewrite lookup_insert_eq.
    eexists. split; [done|]. apply lor_sets_bits.
Qed.

Lemma install_hook_written_executable_witness :
  let git : commands := λ _, Completed 0 (py "/repo" ++ [LF]) in
  let w := HookFs ∅ {[ py "/repo/.git/hooks" ]} in
  let path := py "/repo/.git/hooks/pre-commit" in
  let w' := HookFs {[ path := Inode 0x81ED HOOK_SCRIPT true ]}
              {[ py "/repo/.git/hooks" ]} in
  ∃ node, inodes w' !! path = Some node ∧ executable (st_mode node).
Proof.
  intros git w path w'.
  refine (install_hook_written_executable git 0x12 w w' None path _ _).
  - vm_compute. reflexivity.
  - intros Heq. apply (f_equal (λ x, inodes x !! path)) in Heq.
    vm_compute in Heq. discriminate.
Defined.

(** ** The commands *)

Lemma get_git_dates_tidy (git : commands) (filepath : pystr)
    (born died : option pystr) :
  get_git_dates git filepath = (born, died) →
  (∀ b, born = Some b → tidy b) ∧ (∀ d, died = Some d → tidy d).
Proof.
  unfold get_git_dates.
  destruct (git _) as [returncode stdout|e]; [|by intros [= <- <-]].
  cbv zeta. pose proof (stripped_lines_tidy (strip stdout)) as Htidy.
  destruct (strip <$> _) as [|d dates]; [by intros [= <- <-]|].
  cbn [truthy]. intros [= <- <-]. rewrite Forall_forall in Htidy.
  split.
  - intros b Hb. apply Htidy. apply last_Some in Hb as [pre ->]. set_solver.
  - intros d' [= <-]. apply Htidy. set_solver.
Qed.

Lemma line_free_take (n : nat) (s : pystr) : line_free s → line_free (take n s).
Proof. apply Forall_take. Qed.

Lemma first_last_words_line_free (lines : list pystr) :
  Forall line_free lines → line_free (first_last_words lines).
Proof.
  induction 1 as [|line lines Hline _ IH]; [apply List.Forall_nil|].
  cbn [first_last_words]. cbv zeta.
  destruct (_ && _); [|done].
  by apply line_free_take, line_free_strip.
Qed.

(** What [mourn] hands to [append_obituary]. *)
Lemma mourn_appends (w : cli_world) (fs fs' : files)
    (filepath root entry : pystr) (reason : option pystr) (from_git : bool)
    (repo_root : option pystr) :
  resolve_repo_root w repo_root = inr root →
  mourn w fs filepath reason from_git repo_root = inr (fs', entry) →
  ∃ obituary born died last_words,
    (fs', entry)
    = append_obituary (w_today w) fs root (display_name_of w filepath root)
        obituary
        (Some {[ "born" := born; "died" := died;
                 "reason" := recorded_cause reason;
                 "last_words" := last_words ]})
    ∧ line_free born ∧ line_free died ∧ line_free last_words.
Proof.
  intros Hroot. unfold mourn. rewrite Hroot.
  destruct (if from_git then _ else _) as [e|content]; [done|].
  cbv zeta.
  pose proof (get_git_dates_tidy (w_git w) filepath) as Hdates.
  destruct (get_git_dates (w_git w) filepath) as [born died].
  destruct (Hdates born died eq_refl) as [Hborn Hdied].
  intros Hresult%(inj inr). eexists _, _, _, _. split.
  - rewrite <- Hresult. unfold display_name_of, recorded_cause, default.
    reflexivity.
  - split; [|split].
    + destruct born as [b|]; cbn [otruthy ostr];
        [|apply (bool_decide_unpack _); reflexivity].
      destruct (truthy b);
        [by apply Hborn | apply (bool_decide_unpack _); reflexivity].
    + destruct died as [d|]; cbn [otruthy ostr];
        [|apply str_of_date_line_free].
      destruct (truthy d);
        [by apply Hdied | apply str_of_date_line_free].
    + apply first_last_words_line_free.
      apply splitlines_no_linebreak.
Qed.

Lemma mourn_metadata_line_free (born died reason last_words : pystr) :
  line_free born → line_free died → line_free reason → line_free last_words →
  metadata_line_free
    (Some {[ "born" := born; "died" := died; "reason" := reason;
             "last_words" := last_words ]}).
Proof.
  intros Hborn Hdied Hreason Hlast key value Hkey. simpl in Hkey.
  apply lookup_insert_Some in Hkey as [[_ <-]|[_ Hkey]]; [done|].
  apply lookup_insert_Some in Hkey as [[_ <-]|[_ Hkey]]; [done|].
  apply lookup_insert_Some in Hkey as [[_ <-]|[_ Hkey]]; [done|].
  by apply lookup_singleton_Some in Hkey as [_ <-].
Qed.

Lemma recorded_cause_line_free (reason : option pystr) :
  (∀ r, reason = Some r → line_free r) → line_free (recorded_cause reason).
Proof.
  intros Hreason. unfold recorded_cause.
  destruct reason as [r|]; cbn [otruthy ostr];
    [|apply (bool_decide_unpack _); reflexivity].
  destruct (truthy r);
    [by apply Hreason | apply (bool_decide_unpack _); reflexivity].
Qed.

(** X17: what [mourn] writes is what [list_obituaries] finds. After a
    [mourn] that completed, the listing of the root it settled on has
    one record more, the last, under the name the obituary was filed
    under and with the reason given as its cause, or
    [Deleted (cause unknown)] without a reason; for a name and a reason
    without line boundary and a log that does not end in CR. *)
Theorem mourn_then_list (w : cli_world) (fs fs' : files)
    (filepath root entry : pystr) (reason : option pystr) (from_git : bool)
    (repo_root : option pystr) :
  resolve_repo_root w repo_root = inr root →
  line_free (display_name_of w filepath root) →
  (∀ r, reason = Some r → line_free r) →
  (∀ text, fs !! get_graveyard_path root = Some text → last text ≠ Some CR) →
  mourn w fs filepath reason from_git repo_root = inr (fs', entry) →
  ∃ lived body,
    list_obituaries fs' root
    = list_obituaries fs root
      ++ [Obituary (strip (display_name_of w filepath root)) lived
            (strip (recorded_cause reason)) body].
Proof.
  intros Hroot Hname Hreason Hlast Hmourn.
  destruct (mourn_appends _ _ _ _ _ _ _ _ _ Hroot Hmourn)
    as (obituary & born & died & last_words & Happend & Hborn & Hdied & Hwords).
  pose proof (mourn_metadata_line_free born died (recorded_cause reason)
                last_words Hborn Hdied (recorded_cause_line_free _ Hreason)
                Hwords) as Hmeta.
  apply (f_equal fst) in Happend. cbn [fst] in Happend. rewrite Happend.
  rewrite list_obituaries_append; first last.
  { done. }
  { by apply metadata_line_free_newline_free. }
  { by apply line_free_newline_free. }
  cbn [omap list_omap]. rewrite parse_entry_section_exact by done.
  eexists _, _. f_equal.
Qed.

Lemma mourn_then_list_witness :
  let w := CliWorld (λ _, Failed FileNotFoundError) (λ path _, Some path)
             (py "/") ∅ (λ _ _, Raised []) (Date 2024 11 1) in
  let root := py "/repo" in
  ∃ fs' entry,
    mourn w ∅ (py "src/old.py") (Some []) true (Some root) = inr (fs', entry)
    ∧ ∃ lived body,
        list_obituaries fs' root
        = [Obituary (py "src/old.py") lived (py "Deleted (cause unknown)") body].
Proof.
  intros w root.
  destruct (mourn w ∅ (py "src/old.py") (Some []) true (Some root))
    as [e|[fs' entry]] eqn:Hmourn; [by vm_compute in Hmourn|].
  exists fs', entry. split; [done|].
  refine (mourn_then_list w ∅ fs' (py "src/old.py") root entry (Some []) true
            (Some root) eq_refl _ _ _ Hmourn).
  - apply (bool_decide_unpack _). reflexivity.
  - intros r [= <-]. apply List.Forall_nil.
  - intros text Htext. by rewrite lookup_empty in Htext.
Defined.

(** X18: [mourn] only appends to the log. After a [mourn] that
    completed, the log of the root it settled on holds what it held, or
    the header when there was none, and then the entry returned; the
    entry is headed by the name the obituary was filed under; every
    other file is as it was. *)
Theorem mourn_only_appends (w : cli_world) (fs fs' : files)
    (filepath root entry : pystr) (reason : option pystr) (from_git : bool)
    (repo_root : option pystr) :
  resolve_repo_root w repo_root = inr root →
  mourn w fs filepath reason from_git repo_root = inr (fs', entry) →
  fs' !! get_graveyard_path root
  = Some (default GRAVEYARD_HEADER (fs !! get_graveyard_path root) ++ entry)
  ∧ (∃ rest,
       entry = [LF] ++ py "## " ++ display_name_of w filepath root ++ [LF]
               ++ rest)
  ∧ ∀ other, other ≠ get_graveyard_path root → fs' !! other = fs !! other.
Proof.
  intros Hroot Hmourn.
  destruct (mourn_appends _ _ _ _ _ _ _ _ _ Hroot Hmourn)
    as (obituary & born & died & last_words & Happend & _).
  pose proof (f_equal fst Happend) as Hfs.
  pose proof (f_equal snd Happend) as Hentry. cbn [fst snd] in Hfs, Hentry.
  split; [|split].
  - rewrite Hfs, append_obituary_log. by rewrite Hentry.
  - rewrite Hentry. cbn [snd append_obituary].
    rewrite format_entry_unlines. by eexists.
  - intros other Hother. rewrite Hfs. by apply append_obituary_frame.
Qed.

Lemma mourn_only_appends_witness :
  let w := CliWorld (λ _, Failed FileNotFoundError) (λ path _, Some path)
             (py "/") ∅ (λ _ _, Raised []) (Date 2024 11 1) in
  let root := py "/repo" in
  let fs : files := {[ py "src/old.py" := py "x = 1" ]} in
  ∃ fs' entry,
    mourn w fs (py "src/old.py") None false (Some root) = inr (fs', entry)
    ∧ fs' !! get_graveyard_path root = Some (GRAVEYARD_HEADER ++ entry)
    ∧ (∃ rest, entry = [LF] ++ py "## src/old.py" ++ [LF] ++ rest)
    ∧ ∀ other, other ≠ get_graveyard_path root → fs' !! other = fs !! other.
Proof.
  intros w root fs.
  destruct (mourn w fs (py "src/old.py") None false (Some root))
    as [e|[fs' entry]] eqn:Hmourn; [by vm_compute in Hmourn|].
  exists fs', entry. split; [done|].
  exact (mourn_only_appends w fs fs' (py "src/old.py") root entry None false
           (Some root) eq_refl Hmourn).
Defined.

Lemma translate_newlines_prefix (a b : pystr) :
  CR ∉ a → translate_newlines false (a ++ b) = a ++ translate_newlines false b.
Proof.
  induction a as [|c a IH]; intros Ha; [done|].
  apply not_elem_of_cons in Ha as [Hc Ha].
  cbn [app translate_newlines andb].
  destruct (N.eqb_spec c CR) as [->|_]; [done|]. by rewrite IH.
Qed.

(** X19: [view] shows the warning for a missing log, and renders as
    Markdown a log that begins with the header the program writes,
    whatever follows it. *)
Theorem view_of_log (w : cli_world) (fs : files) (repo_root : option pystr)
    (root : pystr) :
  resolve_repo_root w repo_root = inr root →
  (fs !! get_graveyard_path root = None →
     view w fs repo_root = inr (Yellow NO_GRAVEYARD))
  ∧ (∀ rest,
       fs !! get_graveyard_path root = Some (GRAVEYARD_HEADER ++ rest) →
       view w fs repo_root
       = inr (Markdown (GRAVEYARD_HEADER ++ universal_newlines rest))).
Proof.
  intros Hroot. unfold view, read_graveyard, read_text. rewrite Hroot.
  split.
  - by intros ->.
  - intros rest ->. cbn [fmap option_fmap option_map].
    unfold universal_newlines. rewrite translate_newlines_prefix
      by (apply (bool_decide_eq_false_1 _); reflexivity).
    reflexivity.
Qed.

Lemma view_of_log_witness :
  let w := CliWorld (λ _, Failed FileNotFoundError) (λ path _, Some path)
             (py "/") ∅ (λ _ _, Raised []) (Date 2024 11 1) in
  let root := py "/repo" in
  let fs : files :=
    {[ get_graveyard_path root
       := GRAVEYARD_HEADER ++ py "No GRAVEYARD.md" ++ [CR; LF] ]} in
  view w fs (Some root)
  = inr (Markdown (GRAVEYARD_HEADER ++ py "No GRAVEYARD.md" ++ [LF])).
Proof.
  intros w root fs.
  exact (proj2 (view_of_log w fs (Some root) root eq_refl)
           (py "No GRAVEYARD.md" ++ [CR; LF]) eq_refl).
Defined.

Lemma excerpt_length (body : pystr) : length (excerpt body) ≤ 83.
Proof.
  unfold excerpt. destruct (Nat.ltb_spec 80 (length body)) as [Hlong|Hshort].
  - rewrite length_app, length_take. cbn [length]. lia.
  - lia.
Qed.



(** X21: a table of [list] is never empty: it has a row for each
    record of the log, in their order, the total is the number of its
    rows, and no excerpt is longer than 83 characters. *)
Theorem list_cmd_table (w : cli_world) (fs : files)
    (repo_root : option pystr) (root : pystr)
    (rows : list (pystr * pystr * pystr * pystr)) (total : nat) :
  resolve_repo_root w repo_root = inr root →
  list_cmd w fs repo_root = inr (Table rows total) →
  rows ≠ [] ∧ total = length rows
  ∧ length rows = length (list_obituaries fs root)
  ∧ Forall (λ row, length row.2 ≤ 83) rows.
Proof.
  intros Hroot. unfold list_cmd. rewrite Hroot. cbv zeta.
  generalize (list_obituaries fs root). intros obituaries.
  destruct (negb (truthy obituaries)) eqn:Hsome; [done|].
  intros Htable%(inj inr). injection Htable as <- <-.
  rewrite length_fmap. split; [by destruct obituaries|].
  split; [done|]. split; [done|].
  apply Forall_fmap, Forall_forall. intros o _. apply excerpt_length.
Qed.

Lemma list_cmd_table_witness :
  let w := CliWorld (λ _, Failed FileNotFoundError) (λ path _, Some path)
             (py "/") ∅ (λ _ _, Raised []) (Date 2024 11 1) in
  let root := py "/repo" in
  let fs :=
    (append_obituary (Date 2024 11 1) ∅ root (py "old.py") (py "Gone.")
       None).1 in
  let rows :=
    [ (py "old.py", py "unknown " ++ [EM_DASH] ++ py " 2024-11-01",
       py "Unknown", py "Gone.") ] in
  rows ≠ [] ∧ 1 = length rows
  ∧ length rows = length (list_obituaries fs root)
  ∧ Forall (λ row, length row.2 ≤ 83) rows.
Proof.
  intros w root fs rows.
  refine (list_cmd_table w fs (Some root) root rows 1 eq_refl _).
  vm_compute. reflexivity.
Defined.

(** ** The commands and git *)

(** X22: [--from-git] falls back on the working tree. When git gives
    no content for any path, and the path relative to the root can be
    computed, [mourn --from-git] does what [mourn] does without the
    flag. *)
Theorem mourn_from_git_falls_back (w : cli_world) (fs : files)
    (filepath : pystr) (reason repo_root : option pystr) :
  (∀ path, get_file_content_from_git (w_git w) path = None) →
  (∀ root, resolve_repo_root w repo_root = inr root →
     is_Some (w_relpath w filepath root)) →
  mourn w fs filepath reason true repo_root
  = mourn w fs filepath reason false repo_root.
Proof.
  intros Hgit Hrel. unfold mourn.
  destruct (resolve_repo_root w repo_root) as [e|root]; [done|].
  destruct (Hrel root eq_refl) as [rel Hrel'].
  rewrite Hgit, Hrel', Hgit. by destruct (truthy root).
Qed.

Lemma mourn_from_git_falls_back_witness :
  let w := CliWorld (λ _, Completed 128 []) (λ path _, Some path)
             (py "/") ∅ (λ _ _, Raised []) (Date 2024 11 1) in
  let fs : files := {[ py "old.py" := py "x = 1" ]} in
  mourn w fs (py "old.py") None true (Some (py "/repo"))
  = mourn w fs (py "old.py") None false (Some (py "/repo")).
Proof.
  intros w fs.
  refine (mourn_from_git_falls_back w fs (py "old.py") None
            (Some (py "/repo")) _ _).
  - done.
  - intros root _. by eexists.
Defined.





(** The refusal that escapes: no content in git under the path. *)
Example mourn_relpath_error_escapes :
  let w := CliWorld (λ _, Completed 128 []) (λ _ _, None)
             (py "/") ∅ (λ _ _, Raised []) (Date 2024 11 1) in
  mourn w ∅ (py "lib/old.py") None true (Some (py "/repo")) = inl ValueError.
Proof. reflexivity. Qed.

(** X24: git that cannot be run. Without a root given, a failure to
    run git other than its non-zero exit escapes from every command,
    and no file is changed. *)
Theorem git_failure_escapes (w : cli_world) (fs : files) (hfs : hook_fs)
    (umask : N) (filepath : pystr) (reason repo_root : option pystr)
    (from_git : bool) (e : exn) :
  w_git w [py "git"; py "rev-parse"; py "--show-toplevel"] = Failed e →
  e ≠ CalledProcessError →
  otruthy repo_root = false →
  mourn w fs filepath reason from_git repo_root = inl e
  ∧ view w fs repo_root = inl e
  ∧ list_cmd w fs repo_root = inl e
  ∧ install w umask hfs repo_root = (hfs, inl e).
Proof.
  intros Hgit He Hroot.
  assert (get_repo_root (w_git w) = inl e) as Hfound.
  { unfold get_repo_root, run_checked. rewrite Hgit. by destruct e. }
  assert (resolve_repo_root w repo_root = inl e) as Hresolve.
  { unfold resolve_repo_root. by rewrite Hroot, Hfound. }
  unfold mourn, view, list_cmd, install. by rewrite Hresolve, Hroot, Hfound.
Qed.

Lemma git_failure_escapes_witness :
  let w := CliWorld (λ _, Failed FileNotFoundError) (λ path _, Some path)
             (py "/") ∅ (λ _ _, Raised []) (Date 2024 11 1) in
  let hfs := HookFs ∅ ∅ in
  mourn w ∅ (py "old.py") None false None = inl FileNotFoundError
  ∧ view w ∅ None = inl FileNotFoundError
  ∧ list_cmd w ∅ None = inl FileNotFoundError
  ∧ install w 0x12 hfs None = (hfs, inl FileNotFoundError).
Proof.
  intros w hfs.
  exact (git_failure_escapes w ∅ hfs 0x12 (py "old.py") None None false
           FileNotFoundError eq_refl ltac:(discriminate) eq_refl).
Defined.

(** X25: outside a repository. When git exits with a code other than
    zero and no root is given, [mourn], [view] and [list] work on the
    current directory, and [install] exits with a message, changing
    nothing. *)
Theorem outside_repository (w : cli_world) (fs : files) (hfs : hook_fs)
    (umask : N) (filepath : pystr) (reason repo_root : option pystr)
    (from_git : bool) (returncode : Z) (stdout : pystr) :
  w_git w [py "git"; py "rev-parse"; py "--show-toplevel"]
    = Completed returncode stdout →
  returncode ≠ 0%Z →
  otruthy repo_root = false →
  truthy (w_cwd w) = true →
  mourn w fs filepath reason from_git repo_root
    = mourn w fs filepath reason from_git (Some (w_cwd w))
  ∧ view w fs repo_root = view w fs (Some (w_cwd w))
  ∧ list_cmd w fs repo_root = list_cmd w fs (Some (w_cwd w))
  ∧ ∃ message, install w umask hfs repo_root = (hfs, inr (ExitError message)).
Proof.
  intros Hgit Hrc Hroot Hcwd.
  assert (get_repo_root (w_git w) = inr None) as Hfound.
  { unfold get_repo_root, run_checked. rewrite Hgit.
    by destruct (Z.eqb_spec returncode 0). }
  assert (resolve_repo_root w repo_root
          = resolve_repo_root w (Some (w_cwd w))) as Hresolve.
  { unfold resolve_repo_root. rewrite Hroot, Hfound. cbn [otruthy ostr].
    by rewrite Hcwd. }
  unfold mourn, view, list_cmd, install. rewrite Hresolve, Hroot, Hfound.
  repeat split. by eexists.
Qed.

Lemma outside_repository_witness :
  let w := CliWorld (λ _, Completed 128 []) (λ path _, Some path)
             (py "/home/me") ∅ (λ _ _, Raised []) (Date 2024 11 1) in
  let hfs := HookFs ∅ ∅ in
  mourn w ∅ (py "old.py") None false None
    = mourn w ∅ (py "old.py") None false (Some (py "/home/me"))
  ∧ view w ∅ None = view w ∅ (Some (py "/home/me"))
  ∧ list_cmd w ∅ None = list_cmd w ∅ (Some (py "/home/me"))
  ∧ ∃ message, install w 0x12 hfs None = (hfs, inr (ExitError message)).
Proof.
  intros w hfs.
  exact (outside_repository w ∅ hfs 0x12 (py "old.py") None None false 128 []
           eq_refl ltac:(discriminate) eq_refl eq_refl).
Defined.

(** X26: an empty reason or date is no reason or date: it reaches
    neither the prompt sent to the text service nor the fallback
    obituary. *)
Theorem generate_obituary_empty_is_none (environ : gmap string (list N))
    (service : text_service) (filename content : pystr)
    (reason born died : option pystr) :
  ai_prompt filename content (or_none reason) (or_none born) (or_none died)
  = ai_prompt filename content reason born died
  ∧ generate_obituary environ service filename content
      (or_none reason) (or_none born) (or_none died)
    = generate_obituary environ service filename content reason born died.
Proof.
  assert (ai_prompt filename content (or_none reason) (or_none born)
            (or_none died)
          = ai_prompt filename content reason born died) as Hprompt.
  { unfold ai_prompt, or_none.
    destruct reason as [[|??]|], born as [[|??]|], died as [[|??]|];
      reflexivity. }
  assert (generate_template_obituary filename content (or_none born)
            (or_none died) (or_none reason)
          = generate_template_obituary filename content born died reason)
    as Htemplate.
  { unfold generate_template_obituary, or_none.
    destruct reason as [[|??]|], born as [[|??]|], died as [[|??]|];
      reflexivity. }
  split; [done|].
  unfold generate_obituary, _generate_ai_obituary.
  by rewrite Hprompt, Htemplate.
Qed.

(** ** Files without declarations, files without content *)

(** X27: a text that holds neither [def] nor [class] declares nothing,
    and its description is the one sentence on type and length. *)
Theorem no_declarations_described (filename content : pystr) :
  ¬ occurs_in (py "def") content → ¬ occurs_in (py "class") content →
  extract_symbols content = Symbols [] []
  ∧ get_file_description filename content
    = filename ++ py " was a "
      ++ default (py "source file") (ext_map !! lower (splitext_ext filename))
      ++ py " with " ++ str_of_nat (length (splitlines content))
      ++ py " lines.".
Proof.
  intros Hdef Hclass.
  assert (extract_symbols content = Symbols [] []) as Hnone.
  { unfold extract_symbols.
    rewrite (findall_not_declaration_shaped FUNCTION_RE)
      by (by apply no_def_not_declaration_shaped).
    by rewrite (findall_not_declaration_shaped CLASS_RE)
      by (by apply no_class_not_declaration_shaped). }
  split; [done|].
  unfold get_file_description. rewrite Hnone. cbn [classes functions truthy].
  cbv zeta. rewrite join_one. reassoc. reflexivity.
Qed.

Lemma no_declarations_described_witness :
  extract_symbols (py "# nothing to see" ++ [LF] ++ py "x = 1") = Symbols [] []
  ∧ get_file_description (py "conf.yml") (py "# nothing to see" ++ [LF] ++ py "x = 1")
    = py "conf.yml was a YAML configuration with 2 lines.".
Proof.
  refine (no_declarations_described (py "conf.yml")
            (py "# nothing to see" ++ [LF] ++ py "x = 1") _ _);
    by apply not_occurs_in.
Defined.

Lemma strip_head_kept (c : char) (s : pystr) :
  isspace c = false → ∃ s', strip (c :: s) = c :: s'.
Proof.
  intros Hc. unfold strip. rewrite lstrip_id by done.
  unfold rstrip. rewrite reverse_cons.
  destruct (lstrip (reverse s)) as [|d r] eqn:Hr.
  - rewrite lstrip_blank_app by done. cbn [lstrip]. rewrite Hc.
    by exists [].
  - rewrite lstrip_app by (by rewrite Hr). rewrite Hr, reverse_app.
    by eexists.
Qed.

(** The placeholder that stands for a content that could not be read
    has no last words to give. *)
Lemma placeholder_last_words (name : pystr) :
  line_free name →
  first_last_words
    (splitlines (py "# " ++ name ++ [LF] ++ py "# (content not available)"
                 ++ [LF]))
  = [].
Proof.
  intros Hname.
  assert (splitlines (py "# " ++ name ++ [LF]
                      ++ py "# (content not available)" ++ [LF])
          = [py "# " ++ name; py "# (content not available)"]) as ->.
  { unfold splitlines.
    change (py "# " ++ name ++ [LF] ++ py "# (content not available)" ++ [LF])
      with ((py "# " ++ name) ++ LF :: py "# (content not available)" ++ [LF]).
    rewrite splitlines_from_line.
    - reflexivity.
    - apply Forall_app_2; [|done].
      apply (bool_decide_unpack _). reflexivity. }
  cbn [first_last_words]. cbv zeta.
  destruct (strip_head_kept 35 (32%N :: name) eq_refl) as [s' Hs].
  change (py "# " ++ name) with (35%N :: 32%N :: name). rewrite Hs.
  reflexivity.
Qed.

(** X28: a file whose content is nowhere to be found gets no last
    words. When git has no content for it and the working tree has no
    such file, the entry of a [mourn] that completed, for a name without
    line boundary, is the entry of an obituary with a birth, a death
    and a cause only. *)
Theorem mourn_without_content (w : cli_world) (fs fs' : files)
    (filepath root entry : pystr) (reason : option pystr) (from_git : bool)
    (repo_root : option pystr) :
  resolve_repo_root w repo_root = inr root →
  (∀ path, get_file_content_from_git (w_git w) path = None) →
  fs !! filepath = None →
  line_free (display_name_of w filepath root) →
  mourn w fs filepath reason from_git repo_root = inr (fs', entry) →
  ∃ obituary born died,
    entry
    = format_entry (w_today w) (display_name_of w filepath root) obituary
        (Some {[ "born" := born; "died" := died;
                 "reason" := recorded_cause reason ]}).
Proof.
  intros Hroot Hgit Hfs Hname. unfold mourn. rewrite Hroot.
  match goal with
  | |- context [if from_git then ?a else ?b] =>
      set (from_head := if from_git then a else b)
  end.
  assert (from_head = inr None ∨ from_head = inl ValueError) as Hhead.
  { unfold from_head. destruct from_git; [|by left].
    rewrite Hgit. destruct (truthy root); [|by left].
    destruct (w_relpath w filepath root); [left|by right]. by rewrite Hgit. }
  clearbody from_head. destruct Hhead as [-> | ->]; [|done].
  cbv zeta. unfold read_text. rewrite Hfs. cbn [fmap option_fmap option_map].
  fold (default (basename filepath) (w_relpath w filepath root)).
  fold (display_name_of w filepath root).
  rewrite placeholder_last_words by done.
  destruct (get_git_dates (w_git w) filepath) as [born died].
  intros Hresult%(inj inr). apply (f_equal snd) in Hresult.
  cbn [snd append_obituary] in Hresult. rewrite <- Hresult.
  eexists _, _, _. reflexivity.
Qed.

Lemma mourn_without_content_witness :
  let w := CliWorld (λ _, Completed 128 []) (λ path _, Some path)
             (py "/") ∅ (λ _ _, Raised []) (Date 2024 11 1) in
  let root := py "/repo" in
  ∃ fs' entry,
    mourn w ∅ (py "gone.py") None true (Some root) = inr (fs', entry)
    ∧ ∃ obituary born died,
        entry
        = format_entry (Date 2024 11 1) (py "gone.py") obituary
            (Some {[ "born" := born; "died" := died;
                     "reason" := py "Deleted (cause unknown)" ]}).
Proof.
  intros w root.
  destruct (mourn w ∅ (py "gone.py") None true (Some root))
    as [e|[fs' entry]] eqn:Hmourn; [by vm_compute in Hmourn|].
  exists fs', entry. split; [done|].
  refine (mourn_without_content w ∅ fs' (py "gone.py") root entry None true
            (Some root) eq_refl _ _ _ Hmourn).
  - done.
  - apply lookup_empty.
  - apply (bool_decide_unpack _). reflexivity.
Defined.

(** ** The matcher finds what the pattern accepts *)

Lemma derives_nonempty (ml : bool) (r : regex) (prev : option char)
    (w : pystr) (g g' : option pystr) :
  derives ml r prev w g g' → nullable r = false → w ≠ [].
Proof.
  induction 1 as [l prev g| | |r1 r2 prev w1 w2 g g1 g2 _ IH1 _ IH2| | |
                  | |r prev w g g1 _ IH]; cbn [nullable]; try done.
  - by destruct l.
  - intros [H1|H2]%andb_false_iff [? ?]%app_eq_nil; [by apply IH1|by apply IH2].
Qed.

Section Completeness.
Variable ml : bool.
Context {R : Type}.

Lemma star_loop_fallback
    (body : option char → pystr → option pystr → cont (R:=R) → option R)
    (k : cont) (fuel : nat) (prev : option char) (s : pystr)
    (g : option pystr) :
  is_Some (k prev s g) → is_Some (star_loop body k fuel prev s g).
Proof.
  intros Hk. destruct fuel as [|fuel]; [done|]. cbn [star_loop].
  by destruct (body prev s g _).
Qed.

(** When [r] accepts the beginning [w] of the text and the match can go
    on after it, the matcher finds a match; for [r*], so does the loop
    with any fuel that covers the text. *)
Lemma rmatch_complete (r : regex) (prev : option char) (w : pystr)
    (g g' : option pystr) :
  derives ml r prev w g g' → star_reads r = true →
  ∀ (s' : pystr) (k : cont (R:=R)),
    is_Some (k (prev_after prev w) s' g') →
    is_Some (rmatch ml r prev (w ++ s') g k)
    ∧ ∀ r1, r = Star r1 → ∀ fuel, length (w ++ s') ≤ fuel →
        is_Some (star_loop (rmatch ml r1) k fuel prev (w ++ s') g).
Proof.
  induction 1 as [l prev g|p c prev g Hc|prev g Hbol
                  |r1 r2 prev w1 w2 g g1 g2 _ IH1 _ IH2
                  |r prev w g g1 _ IH|r prev g|r prev g
                  |r prev w1 w2 g g1 g2 H1 IH1 _ IH2
                  |r prev w g g1 _ IH];
    cbn [star_reads]; intros Hreads s' k Hk.
  - split; [|done]. by rewrite rmatch_lit.
  - split; [|done]. cbn [app]. by rewrite rmatch_cls_cons, Hc.
  - split; [|done]. by rewrite rmatch_bol, Hbol.
  - apply andb_true_iff in Hreads as [Hreads1 Hreads2].
    split; [|done]. rewrite rmatch_cat, <- app_assoc.
    apply IH1; [done|]. apply IH2; [done|]. by rewrite prev_after_app.
  - split; [|done]. rewrite rmatch_opt.
    destruct (IH Hreads s' k Hk) as [[x ->] _]. done.
  - split; [|done]. rewrite rmatch_opt. cbn [app].
    by destruct (rmatch ml r prev s' g k).
  - cbn [app]. split.
    + rewrite rmatch_star. by apply star_loop_fallback.
    + intros r1 [= <-] fuel _. by apply star_loop_fallback.
  - apply andb_true_iff in Hreads as [Hnull%negb_true_iff Hreads].
    pose proof (derives_nonempty _ _ _ _ _ _ H1 Hnull) as Hw1.
    assert (∀ fuel, length ((w1 ++ w2) ++ s') ≤ fuel →
              is_Some (star_loop (rmatch ml r) k fuel prev
                         ((w1 ++ w2) ++ s') g)) as Hloop.
    { intros fuel Hfuel. destruct fuel as [|fuel].
      { destruct w1; [done|]. simpl in Hfuel. lia. }
      cbn [star_loop]. rewrite <- app_assoc.
      match goal with
      | |- is_Some (match rmatch ml r prev _ g ?K with _ => _ end) =>
          assert (is_Some (rmatch ml r prev (w1 ++ w2 ++ s') g K))
            as [x ->]; [apply IH1; [done|]; cbv beta|done]
      end.
      assert ((length (w2 ++ s') <? length (w1 ++ w2 ++ s')) = true) as ->.
      { apply Nat.ltb_lt. rewrite (length_app w1).
        destruct w1; [done|]. simpl. lia. }
      apply (IH2 ltac:(cbn [star_reads]; by rewrite Hnull, Hreads) s' k).
      - by rewrite prev_after_app.
      - done.
      - rewrite <- app_assoc, (length_app w1) in Hfuel.
        destruct w1; [done|]. simpl in Hfuel. lia. }
    split.
    + rewrite rmatch_star. by apply Hloop.
    + by intros r1 [= <-].
  - split; [|done]. cbn [rmatch].
    apply IH; [done|]. rewrite length_app.
    replace (length w + length s' - length s') with (length w) by lia.
    by rewrite take_app_length.
Qed.

End Completeness.

(** Where a declaration starts, the matcher finds one. *)
Lemma try_at_complete (r : regex) (prev : option char) (s w : pystr)
    (g : option pystr) :
  star_reads r = true → starts r prev s w g →
  is_Some (try_at true r prev s).
Proof.
  intros Hreads [[s' ->] Hd]. unfold try_at.
  by apply (rmatch_complete true r prev w None g Hd Hreads).
Qed.

Lemma try_at_None (r : regex) (prev : option char) (s : pystr) :
  star_reads r = true →
  try_at true r prev s = None → ∀ w g, ¬ starts r prev s w g.
Proof.
  intros Hreads Hnone w g Hstarts.
  destruct (try_at_complete r prev s w g Hreads Hstarts) as [x Hx].
  congruence.
Qed.

(** The scan of [re.findall] after a match: the characters of the match
    are passed over. *)
Lemma findall_from_skip (ml : bool) (r : regex) (prev : option char)
    (u rest : pystr) :
  findall_from ml r prev (u ++ rest) (length u)
  = findall_from ml r (prev_after prev u) rest 0.
Proof.
  revert prev. induction u as [|c u IH]; intros prev; [done|].
  cbn [app length findall_from]. rewrite IH.
  change (c :: u) with ([c] ++ u). by rewrite <- prev_after_app.
Qed.

(** [re.findall] lists the names of the declarations it meets from left
    to right. *)
Lemma findall_from_scanned (r : regex) :
  star_reads r = true → nullable r = false →
  ∀ (n : nat) (s : pystr) (prev : option char),
    length s ≤ n → scanned r prev s (findall_from true r prev s 0).
Proof.
  intros Hreads Hnull. induction n as [|n IH]; intros s prev Hn.
  - destruct s; [|simpl in Hn; lia]. cbn [findall_from].
    destruct (try_at true r prev []) as [[g m]|] eqn:Ht.
    + apply try_at_sound in Ht as (w & s' & Hs & _ & Hd).
      symmetry in Hs. apply app_eq_nil in Hs as [-> _].
      by apply derives_nonempty in Hd.
    + apply scanned_end. by apply try_at_None.
  - destruct s as [|c s].
    { apply (IH [] prev). simpl. lia. }
    cbn [findall_from].
    destruct (try_at true r prev (c :: s)) as [[g m]|] eqn:Ht.
    + apply try_at_sound in Ht as (w & rest & Hs & -> & Hd).
      pose proof (derives_nonempty _ _ _ _ _ _ Hd Hnull) as Hw.
      destruct w as [|c' w]; [done|]. injection Hs as <- ->.
      cbn [length pred]. rewrite findall_from_skip.
      apply (scanned_take r prev _ (c :: w) g rest); [done|done|done|].
      change (c :: w) with ([c] ++ w). rewrite <- prev_after_app. apply IH.
      simpl in Hn. rewrite length_app in Hn. lia.
    + apply scanned_skip; [by apply try_at_None|].
      apply IH. simpl in Hn. lia.
Qed.

(** When the text has one reading at most as a declaration, the names
    met are determined. *)
Lemma scanned_unique (r : regex) :
  (∀ prev s w1 w2 g1 g2,
     starts r prev s w1 g1 → starts r prev s w2 g2 → w1 = w2 ∧ g1 = g2) →
  ∀ prev s names1 names2,
    scanned r prev s names1 → scanned r prev s names2 → names1 = names2.
Proof.
  intros Hone prev s names1 names2 H1. revert names2.
  induction H1 as [prev Hno|prev c s names Hno _ IH
                   |prev s w g rest names Hs Hw Hd _ IH];
    intros names2 H2.
  - inversion H2 as [| |? ? w g rest ? Hs Hw Hd]; subst; [done|].
    symmetry in Hs. by apply app_eq_nil in Hs as [-> _].
  - inversion H2 as [|? ? ? ? Hno2 H2'|? ? w g rest ? Hs Hw Hd H2']; subst.
    + by apply IH.
    + destruct (Hno w g). split; [by eexists|done].
  - assert (starts r prev s w g) as Hstarts by (split; [by eexists|done]).
    inversion H2 as [? Hno2|? ? ? ? Hno2 H2'|? ? w' g' rest' ? Hs' Hw' Hd' H2'];
      subst.
    + match goal with H : [] = w ++ rest |- _ =>
        symmetry in H; by apply app_eq_nil in H as [-> _] end.
    + match goal with H : _ :: _ = w ++ rest |- _ =>
        rewrite <- H in Hstarts end.
      by destruct (Hno2 w g).
    + destruct (Hone prev (w ++ rest) w w' g g' Hstarts) as [<- <-].
      { split; [by eexists|done]. }
      apply app_inv_head in Hs' as <-. f_equal. by apply IH.
Qed.

(** ** One reading of a declaration *)

Lemma run_unique (p : char → bool) (u1 u2 t1 t2 : pystr) :
  Forall (λ c, p c = true) u1 → Forall (λ c, p c = true) u2 →
  stops p t1 → stops p t2 →
  u1 ++ t1 = u2 ++ t2 → u1 = u2 ∧ t1 = t2.
Proof.
  intros Hu1. revert u2.
  induction Hu1 as [|c u1 Hc _ IH]; intros u2 Hu2 Ht1 Ht2 Heq.
  - destruct Hu2 as [|c' u2 Hc' _]; [done|].
    cbn [app] in Heq. subst t1. cbn [stops] in Ht1. congruence.
  - destruct Hu2 as [|c' u2 Hc' Hu2].
    + cbn [app] in Heq. subst t2. cbn [stops] in Ht2. congruence.
    + cbn [app] in Heq. injection Heq as <- Heq.
      destruct (IH u2 Hu2 Ht1 Ht2 Heq) as [-> ->]. done.
Qed.

Lemma ident_char_not_space (c : char) :
  ident_char c = true → isspace c = false.
Proof.
  intros Hc. apply not_true_iff_false. intros Hs.
  unfold ident_char, ident_start, isspace in *.
  rewrite !orb_true_iff, !andb_true_iff, !N.leb_le, !N.eqb_eq in *. lia.
Qed.

Lemma ident_start_char (c : char) : ident_start c = true → ident_char c = true.
Proof. unfold ident_char. by intros ->. Qed.

Lemma stops_ident_after_spaces (ws : pystr) (c : char) (t : pystr) :
  Forall (λ c, isspace c = true) ws → ident_char c = false →
  stops ident_char (ws ++ c :: t).
Proof.
  intros Hws Hc. destruct Hws as [|a ws Ha _]; [done|]. cbn [app stops].
  destruct (ident_char a) eqn:Hident; [|done].
  apply ident_char_not_space in Hident. congruence.
Qed.

Lemma stops_space_ident (c : char) (t : pystr) :
  ident_start c = true → stops isspace (c :: t).
Proof. intros Hc. by apply ident_char_not_space, ident_start_char. Qed.

Lemma paren_or_colon (c : char) :
  (c =? 40)%N || (c =? 58)%N = true →
  ident_char c = false ∧ isspace c = false.
Proof. by intros [->%N.eqb_eq| ->%N.eqb_eq]%orb_true_iff. Qed.

(** Two runs of [p] that stop at the same place of the same text. *)
Ltac stops_here :=
  first [reflexivity | by apply stops_space_ident
        | apply stops_ident_after_spaces; [assumption | done] | done].

Ltac same_run p :=
  match goal with
  | H : ?u1 ++ ?t1 = ?u2 ++ ?t2 |- _ =>
      let E := fresh "E" in
      let T := fresh "T" in
      assert (u1 = u2 ∧ t1 = t2) as [E T]
        by (apply (run_unique p);
            [first [assumption | by constructor]
            |first [assumption | by constructor]
            |stops_here | stops_here | exact H]);
      clear H; subst
  end.

Ltac same_reading :=
  repeat first [progress simplify_eq
               | same_run isspace | same_run ident_char].

(** A text has one reading at most as a function declaration. *)
Lemma FUNCTION_RE_one_reading (prev : option char) (s w1 w2 : pystr)
    (g1 g2 : option pystr) :
  starts FUNCTION_RE prev s w1 g1 → starts FUNCTION_RE prev s w2 g2 →
  w1 = w2 ∧ g1 = g2.
Proof.
  intros [[p1 Hs1] Hd1] [[p2 Hs2] Hd2]. unfold FUNCTION_RE, IDENT in *.
  inv_derives.
  all: repeat (rewrite <- ?app_assoc in Hs2; cbn [app] in Hs2).
  all: same_reading.
  all: done.
Qed.

(** A text has one reading at most as a class declaration. *)
Lemma CLASS_RE_one_reading (prev : option char) (s w1 w2 : pystr)
    (g1 g2 : option pystr) :
  starts CLASS_RE prev s w1 g1 → starts CLASS_RE prev s w2 g2 →
  w1 = w2 ∧ g1 = g2.
Proof.
  intros [[p1 Hs1] Hd1] [[p2 Hs2] Hd2]. unfold CLASS_RE, IDENT in *.
  inv_derives.
  repeat match goal with
    | H : (_ =? 40)%N || (_ =? 58)%N = true |- _ =>
        apply paren_or_colon in H as [? ?]
    end.
  repeat (rewrite <- ?app_assoc in Hs2; cbn [app] in Hs2).
  same_reading.
  done.
Qed.

(** ** The symbols of a text *)

Lemma FUNCTION_RE_shape :
  star_reads FUNCTION_RE = true ∧ nullable FUNCTION_RE = false.
Proof. done. Qed.

Lemma CLASS_RE_shape :
  star_reads CLASS_RE = true ∧ nullable CLASS_RE = false.
Proof. done. Qed.

(** C8: [extract_symbols] answers, on every text, the names of the
    function declarations and the names of the class declarations that
    are met when the text is read from left to right, in that order,
    the reading going on after each declaration; these lists are the
    only ones of that kind. The names are identifiers. On the empty
    text, and on a text that holds no piece of the shape of a
    declaration, the lists are empty. *)
Theorem extract_symbols_ordered (content : pystr) :
  let symbols := extract_symbols content in
  (scanned FUNCTION_RE None content (functions symbols)
   ∧ ∀ names, scanned FUNCTION_RE None content names →
       names = functions symbols)
  ∧ (scanned CLASS_RE None content (classes symbols)
     ∧ ∀ names, scanned CLASS_RE None content names →
         names = classes symbols)
  ∧ Forall is_identifier (functions symbols)
  ∧ Forall is_identifier (classes symbols)
  ∧ (content = [] → functions symbols = [] ∧ classes symbols = [])
  ∧ (¬ declaration_shaped FUNCTION_RE content → functions symbols = [])
  ∧ (¬ declaration_shaped CLASS_RE content → classes symbols = []).
Proof.
  cbv zeta. unfold extract_symbols, re_findall. cbn [functions classes].
  destruct FUNCTION_RE_shape as [Hfr Hfn], CLASS_RE_shape as [Hcr Hcn].
  pose proof (findall_from_scanned FUNCTION_RE Hfr Hfn (length content)
                content None (le_n _)) as Hfunctions.
  pose proof (findall_from_scanned CLASS_RE Hcr Hcn (length content)
                content None (le_n _)) as Hclasses.
  split_and!.
  - done.
  - intros names Hnames.
    exact (scanned_unique FUNCTION_RE FUNCTION_RE_one_reading None content
             _ _ Hnames Hfunctions).
  - done.
  - intros names Hnames.
    exact (scanned_unique CLASS_RE CLASS_RE_one_reading None content
             _ _ Hnames Hclasses).
  - apply (findall_from_ordered true FUNCTION_RE is_identifier).
    intros prev w g Hd.
    by apply derives_FUNCTION_RE in Hd as (x & -> & Hx & _).
  - apply (findall_from_ordered true CLASS_RE is_identifier).
    intros prev w g Hd.
    by apply derives_CLASS_RE in Hd as (x & -> & Hx & _).
  - by intros ->.
  - apply findall_not_declaration_shaped.
  - apply findall_not_declaration_shaped.
Qed.

Lemma extract_symbols_ordered_witness :
  let content :=
    py "class Router:" ++ [LF] ++ py "    def route(self):" ++ [LF]
    ++ py "async def get_user(user_id):" ++ [LF] in
  let plain := py "x = 1" ++ [LF] in
  scanned FUNCTION_RE None content [py "route"; py "get_user"]
  ∧ scanned CLASS_RE None content [py "Router"]
  ∧ (functions (extract_symbols []) = [] ∧ classes (extract_symbols []) = [])
  ∧ functions (extract_symbols plain) = []
  ∧ classes (extract_symbols plain) = [].
Proof.
  intros content plain. split_and!.
  - exact (proj1 (proj1 (extract_symbols_ordered content))).
  - exact (proj1 (proj1 (proj2 (extract_symbols_ordered content)))).
  - exact (proj1 (proj1 (proj2 (proj2 (proj2 (proj2
             (extract_symbols_ordered []))))) eq_refl)).
  - exact (proj2 (proj1 (proj2 (proj2 (proj2 (proj2
             (extract_symbols_ordered []))))) eq_refl)).
  - exact (proj1 (proj2 (proj2 (proj2 (proj2 (proj2
             (extract_symbols_ordered plain))))))
             (no_def_not_declaration_shaped plain
                (not_occurs_in plain (py "def") eq_refl))).
  - exact (proj2 (proj2 (proj2 (proj2 (proj2 (proj2
             (extract_symbols_ordered plain))))))
             (no_class_not_declaration_shaped plain
                (not_occurs_in plain (py "class") eq_refl))).
Defined.

(** The order is the order of the text: the names the other way round
    are not the names met. *)
Example scanned_in_text_order :
  let content :=
    py "def b(" ++ [LF] ++ py "def a(" ++ [LF] ++ py "# b" in
  scanned FUNCTION_RE None content [py "b"; py "a"]
  ∧ ¬ scanned FUNCTION_RE None content [py "a"; py "b"]
  ∧ ¬ scanned FUNCTION_RE None content [].
Proof.
  intros content.
  destruct FUNCTION_RE_shape as [Hfr Hfn].
  pose proof (findall_from_scanned FUNCTION_RE Hfr Hfn (length content)
                content None (le_n _)) as Hscan.
  split; [exact Hscan|].
  split; intros Hother;
    by pose proof (scanned_unique FUNCTION_RE FUNCTION_RE_one_reading None
                     content _ _ Hother Hscan).
Qed.
